(** * Charm-hadron polarisation task: a shallow embedding

    Embedding of [PWGHF/D2H/Tasks/taskCharmPolarisation.cxx]
    ([struct TaskPolarisationCharmHadrons]): the start-up checks of [init],
    the kinematic extraction, the four cosThetaStar values and the
    histogram fills of [runPolarisationAnalysis], and the three process
    functions.

    Numeric conventions.  C++ [int], [uint8_t] and [bool] values are [Z],
    [nat] and [bool].  C++ [float]/[double] values are idealised: a value
    that the code reads or builds with [+], [-], [*], [sqrt], [sin], [cos]
    is a real number (type [R]; rounding and overflow are not modelled).
    The only divisions whose divisor can vanish on finite inputs are the
    ones of the cosThetaStar values; their result has type [float], which
    adds one element [NonFinite] standing for the IEEE values NaN and
    +-infinity. *)

From Stdlib Require Import Reals.Reals Psatz ZArith.ZArith Bool.Bool
  Lists.List Strings.String FinFun.
Import ListNotations.

Open Scope R_scope.

(** ** Numbers *)

Inductive float : Type :=
| Finite (r : R)
| NonFinite.

(** IEEE division of a possibly non-finite numerator by a finite divisor:
    [x / 0] is NaN or an infinity, and NaN and the infinities stay what
    they are when divided by a finite number. *)
Definition fdiv (x : float) (d : R) : float :=
  match x with
  | Finite a => if Req_dec_T d 0 then NonFinite else Finite (a / d)
  | NonFinite => NonFinite
  end.

Definition isFinite (x : float) : bool :=
  match x with Finite _ => true | NonFinite => false end.

(** [constants::math::PI] and [constants::math::TwoPI] are declared outside
    the task's file; they are the numbers their names say. *)
Definition TwoPI : R := 2 * PI.

(** Conversion of a C++ [bool] to [int], as in the [std::array<int, 4>]
    initialisers of [init]. *)
Definition b2i (b : bool) : Z := if b then 1%Z else 0%Z.

(** ** ROOT vectors *)

(** [ROOT::Math::XYZVector] *)
Record XYZVector : Type := mkXYZ { X : R; Y : R; Z_ : R }.

(** [ROOT::Math::PxPyPzMVector] *)
Record PxPyPzMVector : Type := mkPxPyPzM { Px : R; Py : R; Pz : R; M : R }.

Definition Vect (v : PxPyPzMVector) : XYZVector := mkXYZ (Px v) (Py v) (Pz v).

Definition Dot (a b : XYZVector) : R := X a * X b + Y a * Y b + Z_ a * Z_ b.

Definition Mag2 (a : XYZVector) : R := X a * X a + Y a * Y a + Z_ a * Z_ a.

(** [std::array<float, 3>] *)
Definition array3 : Type := (R * R * R)%type.

(** ** Candidates *)

Module charm_polarisation.

Inductive DecayChannel : Type :=
| DstarToDzeroPi
| LcToPKPi
| LcToPK0S.

(** [enum MassHyposLcToPKPi : uint8_t] *)
Definition PKPi : nat := 0.
Definition PiKP : nat := 1.
Definition NMassHypoLcToPKPi : nat := 2.

End charm_polarisation.
Import charm_polarisation.

(** Columns of [soa::Join<aod::HfCandDstar, aod::HfSelDstarToD0Pi>] that the
    task reads; [y] is the dynamic column taking the mass. *)
Record CandDstarWSelFlag : Type := mkCandDstar {
  pxSoftPi : R;
  pySoftPi : R;
  pzSoftPi : R;
  pxDstar : R;
  pyDstar : R;
  pzDstar : R;
  signSoftPi : Z;
  invMassDstar : R;
  invMassAntiDstar : R;
  invMassD0 : R;
  invMassD0Bar : R;
  y : R -> R
}.

(** Columns of [soa::Join<aod::HfCand3Prong, aod::HfSelLc>] (joined with
    [aod::HfMlLcToPKPi] in the ML process function) that the task reads. *)
Record CandLcToPKPiWSelFlag : Type := mkCandLc {
  pxProng0 : R;
  pyProng0 : R;
  pzProng0 : R;
  pxProng1 : R;
  pyProng1 : R;
  pzProng1 : R;
  pxProng2 : R;
  pyProng2 : R;
  pzProng2 : R;
  px : R;
  py : R;
  pz : R;
  isSelLcToPKPi : Z;
  isSelLcToPiKP : Z;
  mlProbLcToPKPi : list R;
  mlProbLcToPiKP : list R
}.

(** The candidate type a channel is instantiated with.  No process function
    instantiates [LcToPK0S]. *)
Definition Cand (channel : DecayChannel) : Type :=
  match channel with
  | DstarToDzeroPi => CandDstarWSelFlag
  | LcToPKPi => CandLcToPKPiWSelFlag
  | LcToPK0S => unit
  end.

(** ** What the task takes from outside its file

    The physical constants, the helper functions of [RecoDecay] and
    [HfHelper], ROOT's boost and the global random generator [gRandom] are
    not defined in the task's file.  They are an interface here; every
    statement below holds for each implementation of it. *)
Class Externals : Type := {
  MassPiPlus : R;
  MassProton : R;
  MassKaonCharged : R;
  MassDStar : R;
  MassLambdaCPlus : R;
  (** [RecoDecay::y(std::array{px, py, pz}, mass)] *)
  RecoDecay_y : array3 -> R -> R;
  (** [RecoDecay::m(std::array{p0, p1, p2}, std::array{m0, m1, m2})] *)
  RecoDecay_m : list array3 -> list R -> R;
  (** [hfHelper.invMassLcToPKPi(candidate)] *)
  invMassLcToPKPi : CandLcToPKPiWSelFlag -> R;
  (** [hfHelper.invMassLcToPiKP(candidate)] *)
  invMassLcToPiKP : CandLcToPKPiWSelFlag -> R;
  (** [fourVec.BoostToCM()] *)
  BoostToCM : PxPyPzMVector -> XYZVector;
  (** [ROOT::Math::Boost{beta}(fourVec)] *)
  Boost : XYZVector -> PxPyPzMVector -> PxPyPzMVector;
  (** state of [gRandom] and [gRandom->Uniform(x1, x2)] *)
  TRandom3 : Type;
  Uniform : TRandom3 -> R -> R -> R * TRandom3
}.

(** ** Configuration and histogram registry *)

(** [ConfigurableAxis]: number of bins, lower and upper edge. *)
Record ConfigurableAxis : Type := mkAxis { nBins : Z; axisLow : R; axisHigh : R }.

Record AxisSpec : Type := mkAxisSpec { binning : ConfigurableAxis; axisTitle : string }.

(** The configurables and the four process switches. *)
Record Configuration : Type := mkConfiguration {
  selectionFlagDstarToD0Pi : bool;
  selectionFlagLcToPKPi : Z;
  configThnAxisInvMass : ConfigurableAxis;
  configThnAxisPt : ConfigurableAxis;
  configThnAxisPz : ConfigurableAxis;
  configThnAxisY : ConfigurableAxis;
  configThnAxisCosThetaStarHelicity : ConfigurableAxis;
  configThnAxisCosThetaStarProduction : ConfigurableAxis;
  configThnAxisCosThetaStarRandom : ConfigurableAxis;
  configThnAxisCosThetaStarBeam : ConfigurableAxis;
  configThnAxisMlBkg : ConfigurableAxis;
  configThnAxisMlNonPrompt : ConfigurableAxis;
  configThnAxisIsRotatedCandidate : ConfigurableAxis;
  nBkgRotations : Z;
  activateTHnSparseCosThStarHelicity : bool;
  activateTHnSparseCosThStarProduction : bool;
  activateTHnSparseCosThStarBeam : bool;
  activateTHnSparseCosThStarRandom : bool;
  doprocessDstar : bool;
  doprocessDstarWithMl : bool;
  doprocessLcToPKPi : bool;
  doprocessLcToPKPiWithMl : bool
}.

(** [HistogramRegistry]: the histograms added so far (name, title, axes) and
    the fill calls received so far, oldest first (name, values). *)
Record HistogramRegistry : Type := mkRegistry {
  histograms : list (string * string * list AxisSpec);
  entries : list (string * list float)
}.

Definition emptyRegistry : HistogramRegistry := mkRegistry [] [].

Definition registry_add (name title : string) (axes : list AxisSpec)
  (reg : HistogramRegistry) : HistogramRegistry :=
  mkRegistry (histograms reg ++ [(name, title, axes)]) (entries reg).

Definition registry_fill (name : string) (values : list float)
  (reg : HistogramRegistry) : HistogramRegistry :=
  mkRegistry (histograms reg) (entries reg ++ [(name, values)]).

(** The fill calls a histogram has received. *)
Definition entriesOf (name : string) (reg : HistogramRegistry) : list (list float) :=
  map snd (filter (fun e => String.eqb (fst e) name) (entries reg)).

(** ** The task *)

(** The data members of [struct TaskPolarisationCharmHadrons]. *)
Record TaskPolarisationCharmHadrons : Type := mkTask {
  config : Configuration;
  massPi : R;
  massProton : R;
  massKaon : R;
  massDstar : R;
  massLc : R;
  bkgRotationAngleStep : R;
  nMassHypos : nat;
  registry : HistogramRegistry
}.

Definition set_registry (reg : HistogramRegistry)
  (t : TaskPolarisationCharmHadrons) : TaskPolarisationCharmHadrons :=
  mkTask (config t) (massPi t) (massProton t) (massKaon t) (massDstar t)
         (massLc t) (bkgRotationAngleStep t) (nMassHypos t) reg.

(** Outcome of [init]: [LOGP(fatal, ...)] ends the run with its message. *)
Inductive InitResult : Type :=
| Fatal (msg : string)
| Initialised (t : TaskPolarisationCharmHadrons).

(** C++ [int] arithmetic: the result of an operation, brought back into the
    32-bit two's-complement range. *)
Definition int_wrap (z : Z) : Z :=
  ((z + 2147483648) mod 4294967296 - 2147483648)%Z.

Definition INT_MAX : Z := 2147483647%Z.

(** The local variables of one pass of the mass-hypothesis loop of
    [runPolarisationAnalysis], as they stand when the channel-specific part
    is done. *)
Record Kinematics : Type := mkKinematics {
  pxDau : R;
  pyDau : R;
  pzDau : R;
  pxCharmHad : R;
  pyCharmHad : R;
  pzCharmHad : R;
  massDau : R;
  invMassCharmHad : R;
  invMassCharmHadForSparse : R;
  rapidity : R;
  outputMl : array3;
  isRotatedCandidate : Z
}.

(** The "variable definition" block at the head of the loop body. *)
Definition initialVariables : Kinematics :=
  mkKinematics (-1000) (-1000) (-1000) (-1000) (-1000) (-1000)
               0 0 0 (-999) (-1, -1, -1) 0%Z.

(** The four values computed at lines 353-356. *)
Record CosThetaStar : Type := mkCosThetaStar {
  cosThetaStarHelicity : float;
  cosThetaStarProduction : float;
  cosThetaStarBeam : float;
  cosThetaStarRandom : float
}.

Section Task.

Context {ext : Externals}.

(** *** [init] *)

Definition thnAxisInvMass (cfg : Configuration) : AxisSpec :=
  mkAxisSpec (configThnAxisInvMass cfg) "#it{M} (GeV/#it{c}^{2})".
Definition thnAxisPt (cfg : Configuration) : AxisSpec :=
  mkAxisSpec (configThnAxisPt cfg) "#it{p}_{T} (GeV/#it{c})".
Definition thnAxisPz (cfg : Configuration) : AxisSpec :=
  mkAxisSpec (configThnAxisPz cfg) "#it{p}_{z} (GeV/#it{c})".
Definition thnAxisY (cfg : Configuration) : AxisSpec :=
  mkAxisSpec (configThnAxisY cfg) "#it{y}".
Definition thnAxisCosThetaStarHelicity (cfg : Configuration) : AxisSpec :=
  mkAxisSpec (configThnAxisCosThetaStarHelicity cfg) "cos(#vartheta_{helicity})".
Definition thnAxisCosThetaStarProduction (cfg : Configuration) : AxisSpec :=
  mkAxisSpec (configThnAxisCosThetaStarProduction cfg) "cos(#vartheta_{production})".
Definition thnAxisCosThetaStarRandom (cfg : Configuration) : AxisSpec :=
  mkAxisSpec (configThnAxisCosThetaStarRandom cfg) "cos(#vartheta_{random})".
Definition thnAxisCosThetaStarBeam (cfg : Configuration) : AxisSpec :=
  mkAxisSpec (configThnAxisCosThetaStarBeam cfg) "cos(#vartheta_{beam})".
Definition thnAxisMlBkg (cfg : Configuration) : AxisSpec :=
  mkAxisSpec (configThnAxisMlBkg cfg) "ML bkg".
Definition thnAxisMlNonPrompt (cfg : Configuration) : AxisSpec :=
  mkAxisSpec (configThnAxisMlNonPrompt cfg) "ML non-prompt".
Definition thnAxisIsRotatedCandidate (cfg : Configuration) : AxisSpec :=
  mkAxisSpec (configThnAxisIsRotatedCandidate cfg)
             "0: standard candidate, 1: rotated candidate".

Definition hSparseCharmPolarisationHelicity : string :=
  "hSparseCharmPolarisationHelicity".
Definition hSparseCharmPolarisationProduction : string :=
  "hSparseCharmPolarisationProduction".
Definition hSparseCharmPolarisationBeam : string :=
  "hSparseCharmPolarisationBeam".
Definition hSparseCharmPolarisationRandom : string :=
  "hSparseCharmPolarisationRandom".

(** One [registry.add] of [init].  The sixteen calls differ in the name,
    the axis word of the title, the cosThetaStar axis, and in whether the
    two ML axes and the rotation axis follow it. *)
Definition addSparse (cfg : Configuration) (withMl withRotation : bool)
  (name axisWord : string) (cosAxis : AxisSpec)
  (reg : HistogramRegistry) : HistogramRegistry :=
  registry_add name
    ("THn for polarisation studies with cosThStar w.r.t. " ++ axisWord
       ++ " axis" ++ (if withMl then " and BDT scores" else ""))%string
    ([thnAxisInvMass cfg; thnAxisPt cfg; thnAxisPz cfg; thnAxisY cfg; cosAxis]
       ++ (if withMl then [thnAxisMlBkg cfg; thnAxisMlNonPrompt cfg] else [])
       ++ (if withRotation then [thnAxisIsRotatedCandidate cfg] else []))
    reg.

(** The four guarded [registry.add] calls of one branch of [init]. *)
Definition addSparses (cfg : Configuration) (withMl withRotation : bool)
  (reg : HistogramRegistry) : HistogramRegistry :=
  let reg :=
    if activateTHnSparseCosThStarHelicity cfg
    then addSparse cfg withMl withRotation hSparseCharmPolarisationHelicity
           "helicity" (thnAxisCosThetaStarHelicity cfg) reg
    else reg in
  let reg :=
    if activateTHnSparseCosThStarProduction cfg
    then addSparse cfg withMl withRotation hSparseCharmPolarisationProduction
           "production" (thnAxisCosThetaStarProduction cfg) reg
    else reg in
  let reg :=
    if activateTHnSparseCosThStarBeam cfg
    then addSparse cfg withMl withRotation hSparseCharmPolarisationBeam
           "beam" (thnAxisCosThetaStarBeam cfg) reg
    else reg in
  if activateTHnSparseCosThStarRandom cfg
  then addSparse cfg withMl withRotation hSparseCharmPolarisationRandom
         "random" (thnAxisCosThetaStarRandom cfg) reg
  else reg.

(** [std::accumulate(a.begin(), a.end(), 0)] *)
Definition accumulate (a : list Z) : Z := fold_left Z.add a 0%Z.

Definition nProcesses (cfg : Configuration) : Z :=
  accumulate [b2i (doprocessDstar cfg); b2i (doprocessDstarWithMl cfg);
              b2i (doprocessLcToPKPi cfg); b2i (doprocessLcToPKPiWithMl cfg)].

Definition nSparses (cfg : Configuration) : Z :=
  accumulate [b2i (activateTHnSparseCosThStarHelicity cfg);
              b2i (activateTHnSparseCosThStarProduction cfg);
              b2i (activateTHnSparseCosThStarBeam cfg);
              b2i (activateTHnSparseCosThStarRandom cfg)].

Definition init (cfg : Configuration) : InitResult :=
  (* check process functions *)
  if (nProcesses cfg >? 1)%Z then
    Fatal "Only one process function should be enabled at a time, please check your configuration"
  else if (nProcesses cfg =? 0)%Z then
    Fatal "No process function enabled"
  (* check output THnSparses *)
  else if (nSparses cfg =? 0)%Z then
    Fatal "No output THnSparses enabled"
  else
    let bkgRotationAngleStep := TwoPI / IZR (int_wrap (nBkgRotations cfg + 1)) in
    let registry :=
      if doprocessDstarWithMl cfg then addSparses cfg true false emptyRegistry
      else if doprocessLcToPKPiWithMl cfg then addSparses cfg true true emptyRegistry
      else if doprocessDstar cfg then addSparses cfg false false emptyRegistry
      else if doprocessLcToPKPi cfg then addSparses cfg false true emptyRegistry
      else emptyRegistry in
    (* inv. mass hypothesis to loop over *)
    let nMassHypos :=
      if doprocessLcToPKPi cfg || doprocessLcToPKPiWithMl cfg
      then NMassHypoLcToPKPi
      else 1%nat in
    Initialised (mkTask cfg MassPiPlus MassProton MassKaonCharged MassDStar
                        MassLambdaCPlus bkgRotationAngleStep nMassHypos registry).

(** *** [runPolarisationAnalysis]: kinematic extraction *)

(** The rotation angle of line 261. *)
Definition bkgRotAngle (t : TaskPolarisationCharmHadrons) (bkgRotationId : Z) : R :=
  bkgRotationAngleStep t * IZR bkgRotationId.

Definition threeVecLcProng0 (candidate : CandLcToPKPiWSelFlag) : array3 :=
  (pxProng0 candidate, pyProng0 candidate, pzProng0 candidate).

Definition threeVecLcRotatedProng1 (t : TaskPolarisationCharmHadrons)
  (candidate : CandLcToPKPiWSelFlag) (bkgRotationId : Z) : array3 :=
  let bkgRotAngle := bkgRotAngle t bkgRotationId in
  (pxProng1 candidate * cos bkgRotAngle - pyProng1 candidate * sin bkgRotAngle,
   pxProng1 candidate * sin bkgRotAngle + pyProng1 candidate * cos bkgRotAngle,
   pzProng1 candidate).

Definition threeVecLcProng2 (candidate : CandLcToPKPiWSelFlag) : array3 :=
  (pxProng2 candidate, pyProng2 candidate, pzProng2 candidate).

(** [a[0]], [a[1]], [a[2]] *)
Definition at0 (a : array3) : R := fst (fst a).
Definition at1 (a : array3) : R := snd (fst a).
Definition at2 (a : array3) : R := snd a.

(** The guarded copy of the ML scores (lines 298-305 and 322-329): the
    candidate's vector is read only when its size is 3. *)
Definition copyMl (withMl : bool) (mlProb : list R) (outputMl : array3) : array3 :=
  if withMl then
    if (List.length mlProb =? 3)%nat
    then (nth 0 mlProb 0, nth 1 mlProb 0, nth 2 mlProb 0)
    else outputMl
  else outputMl.

(** The D* branch (lines 236-254). *)
Definition kinematicsDstar (withMl : bool) (t : TaskPolarisationCharmHadrons)
  (candidate : CandDstarWSelFlag) : Kinematics :=
  let invMassCharmHad :=
    if (signSoftPi candidate >? 0)%Z
    then invMassDstar candidate else invMassAntiDstar candidate in
  let invMassCharmHadForSparse :=
    if (signSoftPi candidate >? 0)%Z
    then invMassCharmHad - invMassD0 candidate
    else invMassCharmHad - invMassD0Bar candidate in
  mkKinematics
    (pxSoftPi candidate) (pySoftPi candidate) (pzSoftPi candidate)
    (pxDstar candidate) (pyDstar candidate) (pzDstar candidate)
    (massPi t)
    invMassCharmHad
    invMassCharmHadForSparse
    (y candidate (massDstar t))
    (if withMl then (-1, -1, -1) else outputMl initialVariables)
    (isRotatedCandidate initialVariables).

(** The Lc->pKpi branch (lines 255-338); [None] is the [continue] of
    line 335. *)
Definition kinematicsLcToPKPi (withMl : bool) (t : TaskPolarisationCharmHadrons)
  (candidate : CandLcToPKPiWSelFlag) (iMass : nat) (bkgRotationId : Z)
  : option Kinematics :=
  let p0 := threeVecLcProng0 candidate in
  let p1 := threeVecLcRotatedProng1 t candidate bkgRotationId in
  let p2 := threeVecLcProng2 candidate in
  let isRotatedCandidate := if (bkgRotationId >? 0)%Z then 1%Z else 0%Z in
  let pxCharmHad :=
    if (bkgRotationId >? 0)%Z then at0 p0 + at0 p1 + at0 p2 else px candidate in
  let pyCharmHad :=
    if (bkgRotationId >? 0)%Z then at1 p0 + at1 p1 + at1 p2 else py candidate in
  let pzCharmHad :=
    if (bkgRotationId >? 0)%Z then at2 p0 + at2 p1 + at2 p2 else pz candidate in
  let massDau := massProton t in
  let rapidity := RecoDecay_y (pxCharmHad, pyCharmHad, pzCharmHad) (massLc t) in
  if (iMass =? PKPi)%nat
     && (isSelLcToPKPi candidate >=? selectionFlagLcToPKPi (config t))%Z then
    (* reconstructed as pKpi *)
    let invMassCharmHad :=
      if negb (bkgRotationId =? 0)%Z
      then RecoDecay_m [p0; p1; p2] [massProton t; massKaon t; massPi t]
      else invMassLcToPKPi candidate in
    let invMassCharmHadForSparse :=
      if negb (bkgRotationId =? 0)%Z
      then invMassCharmHad
      else invMassLcToPKPi candidate in
    Some (mkKinematics
            (pxProng0 candidate) (pyProng0 candidate) (pzProng0 candidate)
            pxCharmHad pyCharmHad pzCharmHad massDau
            invMassCharmHad invMassCharmHadForSparse rapidity
            (copyMl withMl (mlProbLcToPKPi candidate) (outputMl initialVariables))
            isRotatedCandidate)
  else if (iMass =? PiKP)%nat
          && (isSelLcToPiKP candidate >=? selectionFlagLcToPKPi (config t))%Z then
    (* reconstructed as piKp *)
    let invMassCharmHad :=
      if negb (bkgRotationId =? 0)%Z
      then RecoDecay_m [p0; p1; p2] [massPi t; massKaon t; massProton t]
      else invMassLcToPiKP candidate in
    let invMassCharmHadForSparse :=
      if negb (bkgRotationId =? 0)%Z
      then invMassCharmHad
      else invMassLcToPiKP candidate in
    Some (mkKinematics
            (pxProng2 candidate) (pyProng2 candidate) (pzProng2 candidate)
            pxCharmHad pyCharmHad pzCharmHad massDau
            invMassCharmHad invMassCharmHadForSparse rapidity
            (copyMl withMl (mlProbLcToPiKP candidate) (outputMl initialVariables))
            isRotatedCandidate)
  else None.

(** The channel-specific part of the loop body, by channel.  For
    [LcToPK0S] neither [if constexpr] branch is compiled and the variables
    keep their initial values. *)
Definition kinematics (channel : DecayChannel) (withMl : bool)
  (t : TaskPolarisationCharmHadrons)
  : Cand channel -> nat -> Z -> option Kinematics :=
  match channel with
  | DstarToDzeroPi => fun candidate _ _ => Some (kinematicsDstar withMl t candidate)
  | LcToPKPi => fun candidate iMass bkgRotationId =>
      kinematicsLcToPKPi withMl t candidate iMass bkgRotationId
  | LcToPK0S => fun _ _ _ => Some initialVariables
  end.

(** *** [runPolarisationAnalysis]: the four cosines *)

Definition fourVecDau (k : Kinematics) : PxPyPzMVector :=
  mkPxPyPzM (pxDau k) (pyDau k) (pzDau k) (massDau k).

Definition fourVecMother (k : Kinematics) : PxPyPzMVector :=
  mkPxPyPzM (pxCharmHad k) (pyCharmHad k) (pzCharmHad k) (invMassCharmHad k).

(** Lines 344-346: the probe momentum in the rest frame of the parent. *)
Definition threeVecDauCM (k : Kinematics) : XYZVector :=
  Vect (Boost (BoostToCM (fourVecMother k)) (fourVecDau k)).

Definition randomVec (phiRandom thetaRandom : R) : XYZVector :=
  mkXYZ (sin thetaRandom * cos phiRandom) (sin thetaRandom * sin phiRandom)
        (cos thetaRandom).

Definition beamVec : XYZVector := mkXYZ 0 0 1.

Definition helicityVec (k : Kinematics) : XYZVector := Vect (fourVecMother k).

Definition normalVec (k : Kinematics) : XYZVector :=
  mkXYZ (pyCharmHad k) (- pxCharmHad k) 0.

(** Lines 353-356. *)
Definition cosThetaStar (k : Kinematics) (phiRandom thetaRandom : R) : CosThetaStar :=
  mkCosThetaStar
    (fdiv (fdiv (Finite (Dot (helicityVec k) (threeVecDauCM k)))
                (sqrt (Mag2 (threeVecDauCM k))))
          (sqrt (Mag2 (helicityVec k))))
    (fdiv (fdiv (Finite (Dot (normalVec k) (threeVecDauCM k)))
                (sqrt (Mag2 (threeVecDauCM k))))
          (sqrt (Mag2 (normalVec k))))
    (fdiv (Finite (Dot beamVec (threeVecDauCM k)))
          (sqrt (Mag2 (threeVecDauCM k))))
    (fdiv (Finite (Dot (randomVec phiRandom thetaRandom) (threeVecDauCM k)))
          (sqrt (Mag2 (threeVecDauCM k)))).

(** *** [runPolarisationAnalysis]: the fills *)

(** One [registry.fill] of lines 359-433.  The calls differ in the
    histogram and its cosine; the D* calls end after the cosine (after the
    two ML scores with ML), the Lc->pKpi calls add the rotation flag.  For
    another channel neither call is made. *)
Definition fillSparse (channel : DecayChannel) (withMl : bool) (name : string)
  (k : Kinematics) (candidatePt : R) (cosThetaStar : float)
  (reg : HistogramRegistry) : HistogramRegistry :=
  let common :=
    [Finite (invMassCharmHadForSparse k); Finite candidatePt;
     Finite (pzCharmHad k); Finite (rapidity k); cosThetaStar] in
  let ml :=
    if withMl
    then [Finite (at0 (outputMl k)); (* outputMl[1], *) Finite (at2 (outputMl k))]
    else [] in
  match channel with
  | DstarToDzeroPi => registry_fill name (common ++ ml) reg
  | LcToPKPi =>
      registry_fill name (common ++ ml ++ [Finite (IZR (isRotatedCandidate k))]) reg
  | LcToPK0S => reg
  end.

Definition fillSparses (channel : DecayChannel) (withMl : bool)
  (cfg : Configuration) (k : Kinematics) (candidatePt : R) (c : CosThetaStar)
  (reg : HistogramRegistry) : HistogramRegistry :=
  let reg :=
    if activateTHnSparseCosThStarHelicity cfg
    then fillSparse channel withMl hSparseCharmPolarisationHelicity
           k candidatePt (cosThetaStarHelicity c) reg
    else reg in
  let reg :=
    if activateTHnSparseCosThStarProduction cfg
    then fillSparse channel withMl hSparseCharmPolarisationProduction
           k candidatePt (cosThetaStarProduction c) reg
    else reg in
  let reg :=
    if activateTHnSparseCosThStarBeam cfg
    then fillSparse channel withMl hSparseCharmPolarisationBeam
           k candidatePt (cosThetaStarBeam c) reg
    else reg in
  if activateTHnSparseCosThStarRandom cfg
  then fillSparse channel withMl hSparseCharmPolarisationRandom
         k candidatePt (cosThetaStarRandom c) reg
  else reg.

(** *** [runPolarisationAnalysis]: the loop *)

(** What processing changes: the task (its registry) and [gRandom]. *)
Definition State : Type := (TaskPolarisationCharmHadrons * TRandom3)%type.

(** Lines 340-433 for the variables [k]: two draws from [gRandom], the
    cosines, the fills. *)
Definition angleAndFill (channel : DecayChannel) (withMl : bool)
  (k : Kinematics) (st : State) : State :=
  let (t, gRandom) := st in
  let (phiRandom, gRandom) := Uniform gRandom 0 TwoPI in
  let (thetaRandom, gRandom) := Uniform gRandom 0 PI in
  let c := cosThetaStar k phiRandom thetaRandom in
  let candidatePt :=
    sqrt (pxCharmHad k * pxCharmHad k + pyCharmHad k * pyCharmHad k) in
  (set_registry (fillSparses channel withMl (config t) k candidatePt c (registry t)) t,
   gRandom).

(** One pass of the loop body, for the mass hypothesis [iMass]. *)
Definition evaluate (channel : DecayChannel) (withMl : bool)
  (candidate : Cand channel) (bkgRotationId : Z) (iMass : nat) (st : State) : State :=
  match kinematics channel withMl (fst st) candidate iMass bkgRotationId with
  | None => st (* continue *)
  | Some k => angleAndFill channel withMl k st
  end.

(** [for (uint8_t iMass = 0u; iMass < nMassHypos; iMass++)] *)
Definition runPolarisationAnalysis (channel : DecayChannel) (withMl : bool)
  (candidate : Cand channel) (bkgRotationId : Z) (st : State) : State :=
  fold_left (fun s iMass => evaluate channel withMl candidate bkgRotationId iMass s)
            (seq 0 (nMassHypos (fst st))) st.

(** *** The process functions *)

(** The values of [iRotation] in
    [for (int iRotation = 1; iRotation <= nBkgRotations; iRotation++)],
    for [nBkgRotations < INT_MAX].  At [nBkgRotations = INT_MAX] the
    increment of the [int] counter overflows in the source and its loop does
    not end: what is stated about a whole loop over the rotations assumes
    [nBkgRotations < INT_MAX]. *)
Definition rotationIds (nBkgRotations : Z) : list Z :=
  map Z.of_nat (seq 1 (Z.to_nat nBkgRotations)).

Definition processDstar (dstarCandidate : CandDstarWSelFlag) (st : State) : State :=
  runPolarisationAnalysis DstarToDzeroPi false dstarCandidate 0%Z st.

(** DUMMY in the source. *)
Definition processDstarWithMl (dstarCandidate : CandDstarWSelFlag) (st : State) : State :=
  st.

Definition processLcToPKPi (lcCandidate : CandLcToPKPiWSelFlag) (st : State) : State :=
  let st := runPolarisationAnalysis LcToPKPi false lcCandidate 0%Z st in
  (* rotational background *)
  fold_left (fun s iRotation => runPolarisationAnalysis LcToPKPi false lcCandidate iRotation s)
            (rotationIds (nBkgRotations (config (fst st)))) st.

Definition processLcToPKPiWithMl (lcCandidate : CandLcToPKPiWSelFlag) (st : State) : State :=
  let st := runPolarisationAnalysis LcToPKPi true lcCandidate 0%Z st in
  (* rotational background *)
  fold_left (fun s iRotation => runPolarisationAnalysis LcToPKPi true lcCandidate iRotation s)
            (rotationIds (nBkgRotations (config (fst st)))) st.

(** The filters of lines 96-97, which the framework applies before it
    calls a process function. *)
Definition filterSelectDstarCandidates (cfg : Configuration) (isSelDstarToD0Pi : bool) : bool :=
  Bool.eqb isSelDstarToD0Pi (selectionFlagDstarToD0Pi cfg).

Definition filterSelectLcToPKPiCandidates (cfg : Configuration)
  (candidate : CandLcToPKPiWSelFlag) : bool :=
  (isSelLcToPKPi candidate >=? selectionFlagLcToPKPi cfg)%Z
  || (isSelLcToPiKP candidate >=? selectionFlagLcToPKPi cfg)%Z.

End Task.

(** Modelled from the spec: the host framework that owns the task is not
    part of the task's file.  By sections 4.1, 5 and 7 it calls [init] once,
    a fatal error there halts the run before any candidate is processed, and
    otherwise the enabled process function is called on every candidate of
    its table, one after the other. *)
Inductive RunResult {ext : Externals} : Type :=
| Halted (msg : string)
| Completed (st : State).

Definition runWorkflow {ext : Externals} (cfg : Configuration)
  (dstarCandidates : list CandDstarWSelFlag)
  (lcCandidates : list CandLcToPKPiWSelFlag) (gRandom : TRandom3) : RunResult :=
  match init cfg with
  | Fatal msg => Halted msg
  | Initialised t =>
      let st := (t, gRandom) in
      let st := if doprocessDstar cfg
                then fold_left (fun s c => processDstar c s) dstarCandidates st
                else st in
      let st := if doprocessDstarWithMl cfg
                then fold_left (fun s c => processDstarWithMl c s) dstarCandidates st
                else st in
      let st := if doprocessLcToPKPi cfg
                then fold_left (fun s c => processLcToPKPi c s) lcCandidates st
                else st in
      let st := if doprocessLcToPKPiWithMl cfg
                then fold_left (fun s c => processLcToPKPiWithMl c s) lcCandidates st
                else st in
      Completed st
  end.

(** ** An implementation of the interface, and concrete inputs

    The statements below are exercised on this implementation: the boost of
    ROOT's [GenVector], the formulas of [RecoDecay], and a random source
    that hands out numbers of the unit interval drawn beforehand. *)
Module Reference.

Definition E (v : PxPyPzMVector) : R :=
  sqrt (Px v * Px v + Py v * Py v + Pz v * Pz v + M v * M v).

Definition boostToCM (v : PxPyPzMVector) : XYZVector :=
  mkXYZ (- Px v / E v) (- Py v / E v) (- Pz v / E v).

Definition boost (beta : XYZVector) (v : PxPyPzMVector) : PxPyPzMVector :=
  let bx := X beta in
  let by_ := Y beta in
  let bz := Z_ beta in
  let bp2 := bx * bx + by_ * by_ + bz * bz in
  let gamma := 1 / sqrt (1 - bp2) in
  let bgamma := gamma * gamma / (1 + gamma) in
  let x := Px v in
  let y := Py v in
  let z := Pz v in
  let t := E v in
  mkPxPyPzM
    ((1 + bgamma * bx * bx) * x + bgamma * bx * by_ * y + bgamma * bx * bz * z
     + gamma * bx * t)
    (bgamma * bx * by_ * x + (1 + bgamma * by_ * by_) * y + bgamma * by_ * bz * z
     + gamma * by_ * t)
    (bgamma * bx * bz * x + bgamma * by_ * bz * y + (1 + bgamma * bz * bz) * z
     + gamma * bz * t)
    (M v).

Definition energy (p : array3) (m : R) : R :=
  sqrt (fst (fst p) * fst (fst p) + snd (fst p) * snd (fst p) + snd p * snd p + m * m).

Definition recoDecayY (p : array3) (m : R) : R :=
  ln ((energy p m + snd p)
      / sqrt (m * m + fst (fst p) * fst (fst p) + snd (fst p) * snd (fst p))).

Definition recoDecayM (momenta : list array3) (masses : list R) : R :=
  let eTot := fold_right Rplus 0 (map (fun pm => energy (fst pm) (snd pm))
                                      (combine momenta masses)) in
  let pxTot := fold_right Rplus 0 (map (fun p => fst (fst p)) momenta) in
  let pyTot := fold_right Rplus 0 (map (fun p => snd (fst p)) momenta) in
  let pzTot := fold_right Rplus 0 (map (fun p : array3 => snd p) momenta) in
  sqrt (eTot * eTot - (pxTot * pxTot + pyTot * pyTot + pzTot * pzTot)).

Definition prongs (c : CandLcToPKPiWSelFlag) : list array3 :=
  [(pxProng0 c, pyProng0 c, pzProng0 c);
   (pxProng1 c, pyProng1 c, pzProng1 c);
   (pxProng2 c, pyProng2 c, pzProng2 c)].

Definition uniform (g : list R) (x1 x2 : R) : R * list R :=
  match g with
  | [] => (x1, [])
  | u :: g' => (x1 + (x2 - x1) * u, g')
  end.

Definition externals : Externals := {|
  MassPiPlus := 0.13957;
  MassProton := 0.938272;
  MassKaonCharged := 0.493677;
  MassDStar := 2.01026;
  MassLambdaCPlus := 2.28646;
  RecoDecay_y := recoDecayY;
  RecoDecay_m := recoDecayM;
  invMassLcToPKPi := fun c => recoDecayM (prongs c) [0.938272; 0.493677; 0.13957];
  invMassLcToPiKP := fun c => recoDecayM (prongs c) [0.13957; 0.493677; 0.938272];
  BoostToCM := boostToCM;
  Boost := boost;
  TRandom3 := list R;
  Uniform := uniform
|}.

Definition axis (n : Z) (lo hi : R) : ConfigurableAxis := mkAxis n lo hi.

(** The default values of the configurables, with the process switches and
    the number of rotations as arguments. *)
Definition configuration (nBkgRotations : Z)
  (dstar dstarMl lc lcMl : bool) : Configuration :=
  mkConfiguration true 1%Z
    (axis 200 0.139 0.179) (axis 100 0 100) (axis 100 (-50) 50)
    (axis 20 (-1) 1) (axis 20 (-1) 1) (axis 20 (-1) 1) (axis 20 (-1) 1)
    (axis 20 (-1) 1) (axis 100 0 1) (axis 100 0 1) (axis 2 (-0.5) 1.5)
    nBkgRotations true true true true dstar dstarMl lc lcMl.

(** A Lc candidate selected as pKpi only, without ML scores. *)
Definition lcPKPiOnly : CandLcToPKPiWSelFlag :=
  mkCandLc 1 0 0  0 1 0  0 0 1  1 1 1  1%Z 0%Z [] [].

(** A Lc candidate selected under both hypotheses, with ML scores. *)
Definition lcBoth : CandLcToPKPiWSelFlag :=
  mkCandLc 1 0 0  0 1 0  0 0 1  1 1 1  1%Z 1%Z [0.1; 0.2; 0.7] [0.3; 0.3; 0.4].

Definition dstarPlus : CandDstarWSelFlag :=
  mkCandDstar 0 1 0  3 0 0  1%Z 2.01 2.2 1.865 1.9 (fun m => 0).

Definition dstarMinus : CandDstarWSelFlag :=
  mkCandDstar 0 1 0  3 0 0  (-1)%Z 2.2 2.01 1.9 1.865 (fun m => 0).

(** A Lc candidate selected under neither hypothesis. *)
Definition lcUnselected : CandLcToPKPiWSelFlag :=
  mkCandLc 1 0 0  0 1 0  0 0 1  1 1 1  0%Z 0%Z [] [].

(** The variables of an evaluation whose parent has momentum (3, 0, 0) and
    mass 4, and whose probe has momentum (0, 1, 0). *)
Definition movingProbe : Kinematics :=
  mkKinematics 0 1 0  3 0 0  0.938272 4 4 0 (-1, -1, -1) 0%Z.

(** The variables of an evaluation whose parent (mass 4) and probe both
    have no momentum at all: every product and sum of the boost is
    exact. *)
Definition bothAtRest : Kinematics :=
  mkKinematics 0 0 0  0 0 0  0.938272 4 4 0 (-1, -1, -1) 0%Z.

End Reference.

(** ** Vocabulary of the statements *)

(** The selection flag that guards a mass hypothesis (lines 283 and 307). *)
Definition lcSelectionFlag (candidate : CandLcToPKPiWSelFlag) (iMass : nat) : Z :=
  if (iMass =? PKPi)%nat then isSelLcToPKPi candidate else isSelLcToPiKP candidate.

(** The invariant mass of the unrotated candidate under a mass hypothesis. *)
Definition unrotatedInvMass {ext : Externals}
  (candidate : CandLcToPKPiWSelFlag) (iMass : nat) : R :=
  if (iMass =? PKPi)%nat then invMassLcToPKPi candidate else invMassLcToPiKP candidate.

(** The three-body mass of the rotated candidate under a mass hypothesis. *)
Definition rotatedInvMass {ext : Externals} (t : TaskPolarisationCharmHadrons)
  (candidate : CandLcToPKPiWSelFlag) (iMass : nat) (bkgRotationId : Z) : R :=
  RecoDecay_m [threeVecLcProng0 candidate;
               threeVecLcRotatedProng1 t candidate bkgRotationId;
               threeVecLcProng2 candidate]
              (if (iMass =? PKPi)%nat
               then [massProton t; massKaon t; massPi t]
               else [massPi t; massKaon t; massProton t]).

(** The values of one fill call, in the order of the axes. *)
Definition fillValues (channel : DecayChannel) (withMl : bool) (k : Kinematics)
  (candidatePt : R) (cosThetaStar : float) : list float :=
  [Finite (invMassCharmHadForSparse k); Finite candidatePt;
   Finite (pzCharmHad k); Finite (rapidity k); cosThetaStar]
  ++ (if withMl then [Finite (at0 (outputMl k)); Finite (at2 (outputMl k))] else [])
  ++ (match channel with
      | LcToPKPi => [Finite (IZR (isRotatedCandidate k))]
      | _ => []
      end).

(** The fill calls of one evaluation, in the order they are issued. *)
Definition issuedFills (channel : DecayChannel) (withMl : bool)
  (cfg : Configuration) (k : Kinematics) (candidatePt : R) (c : CosThetaStar)
  : list (string * list float) :=
  match channel with
  | LcToPK0S => []
  | _ =>
      (if activateTHnSparseCosThStarHelicity cfg
       then [(hSparseCharmPolarisationHelicity,
              fillValues channel withMl k candidatePt (cosThetaStarHelicity c))]
       else [])
      ++ (if activateTHnSparseCosThStarProduction cfg
          then [(hSparseCharmPolarisationProduction,
                 fillValues channel withMl k candidatePt (cosThetaStarProduction c))]
          else [])
      ++ (if activateTHnSparseCosThStarBeam cfg
          then [(hSparseCharmPolarisationBeam,
                 fillValues channel withMl k candidatePt (cosThetaStarBeam c))]
          else [])
      ++ (if activateTHnSparseCosThStarRandom cfg
          then [(hSparseCharmPolarisationRandom,
                 fillValues channel withMl k candidatePt (cosThetaStarRandom c))]
          else [])
  end.

(** The two random draws and the variables that the fills of one
    evaluation are made from. *)
Definition drawnPhi {ext : Externals} (gRandom : TRandom3) : R := fst (Uniform gRandom 0 TwoPI).
Definition drawnTheta {ext : Externals} (gRandom : TRandom3) : R :=
  fst (Uniform (snd (Uniform gRandom 0 TwoPI)) 0 PI).
Definition afterDraws {ext : Externals} (gRandom : TRandom3) : TRandom3 :=
  snd (Uniform (snd (Uniform gRandom 0 TwoPI)) 0 PI).
Definition candidatePtOf (k : Kinematics) : R :=
  sqrt (pxCharmHad k * pxCharmHad k + pyCharmHad k * pyCharmHad k).

(** The read-only part of the task: everything but the registry. *)
Definition sameSetup (t t' : TaskPolarisationCharmHadrons) : Prop :=
  config t' = config t
  /\ nMassHypos t' = nMassHypos t
  /\ bkgRotationAngleStep t' = bkgRotationAngleStep t
  /\ massPi t' = massPi t /\ massProton t' = massProton t
  /\ massKaon t' = massKaon t /\ massDstar t' = massDstar t
  /\ massLc t' = massLc t.

(** The other one of the two mass hypotheses. *)
Definition otherHypothesis (iMass : nat) : nat :=
  if (iMass =? PKPi)%nat then PiKP else PKPi.

(** The Lc process function of a mode. *)
Definition processLc {ext : Externals} (withMl : bool)
  : CandLcToPKPiWSelFlag -> State -> State :=
  if withMl then processLcToPKPiWithMl else processLcToPKPi.

(** The value on the mass axis (the first value) of a fill. *)
Definition massAxisValue (e : string * list float) : option float := hd_error (snd e).

(** The value on the rotation axis (the last value) of a Lc fill. *)
Definition rotationAxisValue (e : string * list float) : option float :=
  hd_error (rev (snd e)).

(** The rotation indices a Lc process function goes through: 0 for the
    original candidate, then those of the loop. *)
Definition allRotationIds (nBkgRotations : Z) : list Z :=
  0%Z :: rotationIds nBkgRotations.

(** The (mass hypothesis, rotation index) pairs obtained by going through
    the rotation indices [rots] and, for each, through [nMass] mass
    hypotheses. *)
Definition evaluationPairs (nMass : nat) (rots : list Z) : list (nat * Z) :=
  flat_map (fun rot => map (fun iMass => (iMass, rot)) (seq 0 nMass)) rots.

(** Evaluation of a list of (mass hypothesis, rotation index) pairs, one
    after the other. *)
Definition evaluateAll {ext : Externals} (channel : DecayChannel) (withMl : bool)
  (candidate : Cand channel) (pairs : list (nat * Z)) (st : State) : State :=
  fold_left (fun s p => evaluate channel withMl candidate (snd p) (fst p) s) pairs st.

(** The D* mass difference: the mass of the selected D* hypothesis minus
    the mass of the corresponding D0 hypothesis. *)
Definition dstarMassDifference (candidate : CandDstarWSelFlag) : R :=
  if (signSoftPi candidate >? 0)%Z
  then invMassDstar candidate - invMassD0 candidate
  else invMassAntiDstar candidate - invMassD0Bar candidate.

(** The cosine of the angle between an axis and a momentum, in the words of
    the specification: (A . p) / (|A| |p|). *)
Definition cosineToAxis (A p : XYZVector) : float :=
  fdiv (Finite (Dot A p)) (sqrt (Mag2 A) * sqrt (Mag2 p)).

(** The same for an axis of unit length: (A . p) / |p|, no |A| factor. *)
Definition cosineToUnitAxis (A p : XYZVector) : float :=
  fdiv (Finite (Dot A p)) (sqrt (Mag2 p)).

(** A value in [-1, 1]. *)
Definition isCosine (x : float) : Prop :=
  exists r, x = Finite r /\ -1 <= r <= 1.

(** The value on the cosine axis (the fifth value) of a fill. *)
Definition cosineAxisValue (e : string * list float) : option float :=
  nth_error (snd e) 4.

(** Whether the loop body goes on for a Lc mass hypothesis: the tests of
    lines 283 and 307. *)
Definition hypothesisSelected (t : TaskPolarisationCharmHadrons)
  (candidate : CandLcToPKPiWSelFlag) (iMass : nat) : bool :=
  (iMass <? NMassHypoLcToPKPi)%nat
  && (lcSelectionFlag candidate iMass >=? selectionFlagLcToPKPi (config t))%Z.

(** The number of mass hypotheses of a candidate that pass their test. *)
Definition selectedCount (t : TaskPolarisationCharmHadrons)
  (candidate : CandLcToPKPiWSelFlag) : Z :=
  (b2i (isSelLcToPKPi candidate >=? selectionFlagLcToPKPi (config t))
   + b2i (isSelLcToPiKP candidate >=? selectionFlagLcToPKPi (config t)))%Z.

(** The number of fill calls received so far. *)
Definition entryCount {ext : Externals} (st : State) : Z :=
  Z.of_nat (List.length (entries (registry (fst st)))).

(** A fill goes to a histogram of the registry, and has as many values as
    that histogram has axes. *)
Definition fillMatchesHistogram (reg : HistogramRegistry)
  (e : string * list float) : Prop :=
  exists title axes,
    In (fst e, title, axes) (histograms reg)
    /\ List.length (snd e) = List.length axes.

(** The number of axes of the histograms of a mode: the five common ones,
    the two ML scores with ML, the rotation flag for Lc->pKpi. *)
Definition axisCount (withMl withRotation : bool) : nat :=
  (5 + (if withMl then 2 else 0) + (if withRotation then 1 else 0))%nat.

(** The name of a registered histogram. *)
Definition histogramName (h : string * string * list AxisSpec) : string := fst (fst h).

(** The axes of a registered histogram. *)
Definition histogramAxes (h : string * string * list AxisSpec) : list AxisSpec := snd h.

(** * Properties *)

(** ** Start-up checks *)

Section InitProperties.

Context {ext : Externals}.

Lemma b2i_range (b : bool) : (0 <= b2i b <= 1)%Z.
Proof. destruct b; simpl; lia. Qed.

Lemma nProcesses_eq (cfg : Configuration) :
  nProcesses cfg
  = (b2i (doprocessDstar cfg) + b2i (doprocessDstarWithMl cfg)
     + b2i (doprocessLcToPKPi cfg) + b2i (doprocessLcToPKPiWithMl cfg))%Z.
Proof. unfold nProcesses, accumulate; simpl; lia. Qed.

Lemma nSparses_eq (cfg : Configuration) :
  nSparses cfg
  = (b2i (activateTHnSparseCosThStarHelicity cfg)
     + b2i (activateTHnSparseCosThStarProduction cfg)
     + b2i (activateTHnSparseCosThStarBeam cfg)
     + b2i (activateTHnSparseCosThStarRandom cfg))%Z.
Proof. unfold nSparses, accumulate; simpl; lia. Qed.

Lemma nProcesses_nonneg (cfg : Configuration) : (0 <= nProcesses cfg)%Z.
Proof.
  rewrite nProcesses_eq.
  pose proof (b2i_range (doprocessDstar cfg)).
  pose proof (b2i_range (doprocessDstarWithMl cfg)).
  pose proof (b2i_range (doprocessLcToPKPi cfg)).
  pose proof (b2i_range (doprocessLcToPKPiWithMl cfg)).
  lia.
Qed.

Lemma nSparses_nonneg (cfg : Configuration) : (0 <= nSparses cfg)%Z.
Proof.
  rewrite nSparses_eq.
  pose proof (b2i_range (activateTHnSparseCosThStarHelicity cfg)).
  pose proof (b2i_range (activateTHnSparseCosThStarProduction cfg)).
  pose proof (b2i_range (activateTHnSparseCosThStarBeam cfg)).
  pose proof (b2i_range (activateTHnSparseCosThStarRandom cfg)).
  lia.
Qed.

(** No histogram enabled: all four switches are off. *)
Lemma nSparses_zero (cfg : Configuration) :
  nSparses cfg = 0%Z
  <-> activateTHnSparseCosThStarHelicity cfg = false
      /\ activateTHnSparseCosThStarProduction cfg = false
      /\ activateTHnSparseCosThStarBeam cfg = false
      /\ activateTHnSparseCosThStarRandom cfg = false.
Proof.
  rewrite nSparses_eq.
  destruct (activateTHnSparseCosThStarHelicity cfg),
           (activateTHnSparseCosThStarProduction cfg),
           (activateTHnSparseCosThStarBeam cfg),
           (activateTHnSparseCosThStarRandom cfg); simpl; split;
    try lia; intuition congruence.
Qed.

(** What [init] leaves in the data members when it completes. *)
Lemma init_completes (cfg : Configuration) (t : TaskPolarisationCharmHadrons) :
  init cfg = Initialised t ->
  nProcesses cfg = 1%Z
  /\ nSparses cfg <> 0%Z
  /\ config t = cfg
  /\ bkgRotationAngleStep t = TwoPI / IZR (int_wrap (nBkgRotations cfg + 1))
  /\ nMassHypos t
     = (if doprocessLcToPKPi cfg || doprocessLcToPKPiWithMl cfg
        then NMassHypoLcToPKPi else 1%nat)
  /\ entries (registry t) = []
  /\ massPi t = MassPiPlus /\ massProton t = MassProton
  /\ massKaon t = MassKaonCharged /\ massDstar t = MassDStar
  /\ massLc t = MassLambdaCPlus.
Proof.
  unfold init. pose proof (nProcesses_nonneg cfg) as Hn.
  destruct (nProcesses cfg >? 1)%Z eqn:H1; [discriminate|].
  destruct (nProcesses cfg =? 0)%Z eqn:H0; [discriminate|].
  destruct (nSparses cfg =? 0)%Z eqn:Hs; [discriminate|].
  intros Heq. injection Heq as <-. cbn [config bkgRotationAngleStep nMassHypos
    registry massPi massProton massKaon massDstar massLc].
  repeat split; try lia.
  unfold addSparses, addSparse, registry_add.
  destruct (doprocessDstarWithMl cfg), (doprocessLcToPKPiWithMl cfg),
             (doprocessDstar cfg), (doprocessLcToPKPi cfg),
             (activateTHnSparseCosThStarHelicity cfg),
             (activateTHnSparseCosThStarProduction cfg),
           (activateTHnSparseCosThStarBeam cfg),
           (activateTHnSparseCosThStarRandom cfg); reflexivity.
Qed.

(** C9. At startup, if no processing mode or more than one processing
    mode is enabled, or if none of the four angle-axis histograms is
    enabled, [init] ends in a fatal error and the run halts before any
    candidate is processed (no state, no fill); with exactly one mode and
    at least one histogram enabled, [init] completes. *)
Theorem C9_init_fatal_checks (cfg : Configuration) :
  (nProcesses cfg = 0%Z \/ (nProcesses cfg > 1)%Z \/ nSparses cfg = 0%Z ->
   exists msg,
     init cfg = Fatal msg
     /\ forall dstarCandidates lcCandidates gRandom,
          runWorkflow cfg dstarCandidates lcCandidates gRandom = Halted msg)
  /\ (nProcesses cfg = 1%Z -> (nSparses cfg >= 1)%Z ->
      exists t, init cfg = Initialised t).
Proof.
  split.
  - intros Hbad.
    assert (exists msg, init cfg = Fatal msg) as [msg Hmsg].
    { unfold init.
      destruct (nProcesses cfg >? 1)%Z eqn:H1; [eauto|].
      destruct (nProcesses cfg =? 0)%Z eqn:H0; [eauto|].
      destruct (nSparses cfg =? 0)%Z eqn:Hs; [eauto|].
      exfalso. destruct Hbad as [Hb | [Hb | Hb]]; lia. }
    exists msg. split; [exact Hmsg|].
    intros; unfold runWorkflow; rewrite Hmsg; reflexivity.
  - intros H1 Hs. unfold init.
    destruct (nProcesses cfg >? 1)%Z eqn:E1; [lia|].
    destruct (nProcesses cfg =? 0)%Z eqn:E0; [lia|].
    destruct (nSparses cfg =? 0)%Z eqn:Es; [lia|].
    eauto.
Qed.

End InitProperties.

(** ** Rotation angles *)

Section RotationProperties.

Context {ext : Externals}.

Lemma int_wrap_small (z : Z) :
  (- 2147483648 <= z <= INT_MAX)%Z -> int_wrap z = z.
Proof.
  unfold int_wrap, INT_MAX. intros Hz.
  rewrite Z.mod_small; lia.
Qed.

Lemma step_after_init (cfg : Configuration) (t : TaskPolarisationCharmHadrons) :
  init cfg = Initialised t ->
  (0 <= nBkgRotations cfg < INT_MAX)%Z ->
  bkgRotationAngleStep t = 2 * PI / (IZR (nBkgRotations cfg) + 1).
Proof.
  intros Hinit HN.
  destruct (init_completes cfg t Hinit) as (_ & _ & _ & Hstep & _).
  rewrite Hstep, int_wrap_small by (unfold INT_MAX in *; lia).
  rewrite plus_IZR. reflexivity.
Qed.

(** A rotation by a full turn leaves the second prong where it was. *)
Lemma rotation_by_full_turn (t : TaskPolarisationCharmHadrons)
  (candidate : CandLcToPKPiWSelFlag) :
  bkgRotationAngleStep t = 2 * PI ->
  threeVecLcRotatedProng1 t candidate 1
  = (pxProng1 candidate, pyProng1 candidate, pzProng1 candidate).
Proof.
  intros Hstep. unfold threeVecLcRotatedProng1, bkgRotAngle.
  rewrite Hstep, Rmult_1_r, cos_2PI, sin_2PI.
  repeat f_equal; ring.
Qed.

End RotationProperties.

(** ** Kinematic extraction for Lc->pKpi *)

Section LcKinematics.

Context {ext : Externals}.

Variable withMl : bool.
Variable t : TaskPolarisationCharmHadrons.
Variable candidate : CandLcToPKPiWSelFlag.

(** A hypothesis whose flag is below the threshold yields no variables. *)
Lemma kinematicsLc_unselected (iMass : nat) (bkgRotationId : Z) :
  (lcSelectionFlag candidate iMass < selectionFlagLcToPKPi (config t))%Z ->
  kinematicsLcToPKPi withMl t candidate iMass bkgRotationId = None.
Proof.
  unfold lcSelectionFlag, kinematicsLcToPKPi, PKPi, PiKP. intros Hsel.
  destruct iMass as [|[|n]]; cbn [Nat.eqb andb] in *.
  - assert ((isSelLcToPKPi candidate >=? selectionFlagLcToPKPi (config t))%Z = false)
      as -> by lia.
    reflexivity.
  - assert ((isSelLcToPiKP candidate >=? selectionFlagLcToPKPi (config t))%Z = false)
      as -> by lia.
    reflexivity.
  - reflexivity.
Qed.

(** No third hypothesis. *)
Lemma kinematicsLc_out_of_range (iMass : nat) (bkgRotationId : Z) :
  (NMassHypoLcToPKPi <= iMass)%nat ->
  kinematicsLcToPKPi withMl t candidate iMass bkgRotationId = None.
Proof.
  unfold kinematicsLcToPKPi, NMassHypoLcToPKPi, PKPi, PiKP. intros Hi.
  destruct iMass as [|[|n]]; [lia|lia|reflexivity].
Qed.

(** A selected hypothesis yields its variables. *)
Lemma kinematicsLc_selected (iMass : nat) (bkgRotationId : Z) :
  (iMass < NMassHypoLcToPKPi)%nat ->
  (lcSelectionFlag candidate iMass >= selectionFlagLcToPKPi (config t))%Z ->
  exists k,
    kinematicsLcToPKPi withMl t candidate iMass bkgRotationId = Some k
    /\ (pxDau k, pyDau k, pzDau k)
       = (if (iMass =? PKPi)%nat
          then threeVecLcProng0 candidate else threeVecLcProng2 candidate)
    /\ massDau k = massProton t
    /\ isRotatedCandidate k = (if (bkgRotationId >? 0)%Z then 1%Z else 0%Z)
    /\ pxCharmHad k
       = (if (bkgRotationId >? 0)%Z
          then pxProng0 candidate
               + at0 (threeVecLcRotatedProng1 t candidate bkgRotationId)
               + pxProng2 candidate
          else px candidate)
    /\ pyCharmHad k
       = (if (bkgRotationId >? 0)%Z
          then pyProng0 candidate
               + at1 (threeVecLcRotatedProng1 t candidate bkgRotationId)
               + pyProng2 candidate
          else py candidate)
    /\ pzCharmHad k
       = (if (bkgRotationId >? 0)%Z
          then pzProng0 candidate
               + at2 (threeVecLcRotatedProng1 t candidate bkgRotationId)
               + pzProng2 candidate
          else pz candidate)
    /\ invMassCharmHad k
       = (if (bkgRotationId =? 0)%Z
          then unrotatedInvMass candidate iMass
          else rotatedInvMass t candidate iMass bkgRotationId)
    /\ invMassCharmHadForSparse k = invMassCharmHad k
    /\ outputMl k
       = copyMl withMl (if (iMass =? PKPi)%nat
                        then mlProbLcToPKPi candidate
                        else mlProbLcToPiKP candidate) (-1, -1, -1).
Proof.
  unfold lcSelectionFlag, unrotatedInvMass, rotatedInvMass, kinematicsLcToPKPi,
    NMassHypoLcToPKPi, PKPi, PiKP.
  intros Hi Hsel.
  destruct iMass as [|[|n]]; [| |lia]; cbn [Nat.eqb andb] in *.
  - assert ((isSelLcToPKPi candidate >=? selectionFlagLcToPKPi (config t))%Z = true)
      as -> by lia.
    eexists; split; [reflexivity|]. cbn -[threeVecLcRotatedProng1].
    destruct (bkgRotationId =? 0)%Z; cbn [negb]; repeat split; reflexivity.
  - assert ((isSelLcToPiKP candidate >=? selectionFlagLcToPKPi (config t))%Z = true)
      as -> by lia.
    eexists; split; [reflexivity|]. cbn -[threeVecLcRotatedProng1].
    destruct (bkgRotationId =? 0)%Z; cbn [negb]; repeat split; reflexivity.
Qed.

End LcKinematics.

Section LcClaims.

Context {ext : Externals}.

(** C3. For every Lc candidate evaluated with rotation index 0 (under a
    mass hypothesis that is selected), the parent momentum used
    downstream is the candidate's own momentum, the invariant mass is the
    unrotated invariant mass of the active hypothesis, and the
    rotated-candidate flag is 0. *)
Theorem C3_rotation_zero_is_identity (withMl : bool)
  (t : TaskPolarisationCharmHadrons) (candidate : CandLcToPKPiWSelFlag)
  (iMass : nat) :
  (iMass < NMassHypoLcToPKPi)%nat ->
  (lcSelectionFlag candidate iMass >= selectionFlagLcToPKPi (config t))%Z ->
  exists k,
    kinematicsLcToPKPi withMl t candidate iMass 0 = Some k
    /\ pxCharmHad k = px candidate
    /\ pyCharmHad k = py candidate
    /\ pzCharmHad k = pz candidate
    /\ invMassCharmHad k = unrotatedInvMass candidate iMass
    /\ invMassCharmHadForSparse k = unrotatedInvMass candidate iMass
    /\ isRotatedCandidate k = 0%Z
    /\ fourVecMother k
       = mkPxPyPzM (px candidate) (py candidate) (pz candidate)
                   (unrotatedInvMass candidate iMass)
    /\ helicityVec k = mkXYZ (px candidate) (py candidate) (pz candidate)
    /\ normalVec k = mkXYZ (py candidate) (- px candidate) 0.
Proof.
  intros Hi Hsel.
  destruct (kinematicsLc_selected withMl t candidate iMass 0 Hi Hsel)
    as (k & Hk & _ & _ & Hrot & Hpx & Hpy & Hpz & Hm & Hms & _).
  cbn [Z.gtb Z.compare Z.eqb] in *.
  exists k. unfold helicityVec, normalVec, fourVecMother, Vect. cbn [Px Py Pz].
  rewrite Hms, Hm, Hpx, Hpy, Hpz. repeat split; assumption.
Qed.

(** C10. For every rotation index, the rotated second prong keeps the
    z-component and the squared transverse momentum of the original one;
    the parent of a rotated replica (index above 0, hypothesis selected)
    has as longitudinal momentum the sum of the three unrotated
    z-components. *)
Theorem C10_rotation_keeps_pz_and_pt (withMl : bool)
  (t : TaskPolarisationCharmHadrons) (candidate : CandLcToPKPiWSelFlag)
  (iMass : nat) (bkgRotationId : Z) :
  let p1 := threeVecLcRotatedProng1 t candidate bkgRotationId in
  at2 p1 = pzProng1 candidate
  /\ at0 p1 * at0 p1 + at1 p1 * at1 p1
     = pxProng1 candidate * pxProng1 candidate
       + pyProng1 candidate * pyProng1 candidate
  /\ ((bkgRotationId > 0)%Z ->
      (iMass < NMassHypoLcToPKPi)%nat ->
      (lcSelectionFlag candidate iMass >= selectionFlagLcToPKPi (config t))%Z ->
      exists k,
        kinematicsLcToPKPi withMl t candidate iMass bkgRotationId = Some k
        /\ isRotatedCandidate k = 1%Z
        /\ pzCharmHad k
           = pzProng0 candidate + pzProng1 candidate + pzProng2 candidate).
Proof.
  cbv zeta. split; [reflexivity|]. split.
  - unfold threeVecLcRotatedProng1, at0, at1. cbn [fst snd].
    set (a := bkgRotAngle t bkgRotationId).
    pose proof (sin2_cos2 a) as Hsc. unfold Rsqr in Hsc.
    nra.
  - intros Hrot Hi Hsel.
    destruct (kinematicsLc_selected withMl t candidate iMass bkgRotationId Hi Hsel)
      as (k & Hk & _ & _ & Hflag & _ & _ & Hpz & _).
    assert ((bkgRotationId >? 0)%Z = true) as Hgt by lia.
    rewrite Hgt in Hflag, Hpz.
    exists k. repeat split; assumption.
Qed.

End LcClaims.

(** ** The fills of one evaluation *)

Section Fills.

Context {ext : Externals}.

Lemma fillSparses_entries (channel : DecayChannel) (withMl : bool)
  (cfg : Configuration) (k : Kinematics) (candidatePt : R) (c : CosThetaStar)
  (reg : HistogramRegistry) :
  entries (fillSparses channel withMl cfg k candidatePt c reg)
  = entries reg ++ issuedFills channel withMl cfg k candidatePt c.
Proof.
  unfold fillSparses, issuedFills, fillSparse, fillValues, registry_fill.
  destruct channel;
    destruct (activateTHnSparseCosThStarHelicity cfg),
             (activateTHnSparseCosThStarProduction cfg),
             (activateTHnSparseCosThStarBeam cfg),
             (activateTHnSparseCosThStarRandom cfg);
    cbn [entries app];
    rewrite <- ?app_assoc, ?app_nil_r; reflexivity.
Qed.

Lemma fillSparses_histograms (channel : DecayChannel) (withMl : bool)
  (cfg : Configuration) (k : Kinematics) (candidatePt : R) (c : CosThetaStar)
  (reg : HistogramRegistry) :
  histograms (fillSparses channel withMl cfg k candidatePt c reg) = histograms reg.
Proof.
  unfold fillSparses, fillSparse, registry_fill.
  destruct channel;
    destruct (activateTHnSparseCosThStarHelicity cfg),
             (activateTHnSparseCosThStarProduction cfg),
             (activateTHnSparseCosThStarBeam cfg),
             (activateTHnSparseCosThStarRandom cfg); reflexivity.
Qed.

Lemma entriesOf_app (name : string) (reg reg' : HistogramRegistry)
  (new : list (string * list float)) :
  entries reg' = entries reg ++ new ->
  entriesOf name reg'
  = entriesOf name reg ++ map snd (filter (fun e => String.eqb (fst e) name) new).
Proof.
  unfold entriesOf. intros ->. rewrite filter_app, map_app. reflexivity.
Qed.

(** What [angleAndFill] does to the state. *)
Lemma angleAndFill_spec (channel : DecayChannel) (withMl : bool)
  (k : Kinematics) (t : TaskPolarisationCharmHadrons) (gRandom : TRandom3) :
  let st' := angleAndFill channel withMl k (t, gRandom) in
  snd st' = afterDraws gRandom
  /\ entries (registry (fst st'))
     = entries (registry t)
       ++ issuedFills channel withMl (config t) k (candidatePtOf k)
            (cosThetaStar k (drawnPhi gRandom) (drawnTheta gRandom))
  /\ histograms (registry (fst st')) = histograms (registry t)
  /\ config (fst st') = config t
  /\ nMassHypos (fst st') = nMassHypos t
  /\ bkgRotationAngleStep (fst st') = bkgRotationAngleStep t
  /\ massPi (fst st') = massPi t /\ massProton (fst st') = massProton t
  /\ massKaon (fst st') = massKaon t /\ massDstar (fst st') = massDstar t
  /\ massLc (fst st') = massLc t.
Proof.
  unfold angleAndFill, afterDraws, drawnPhi, drawnTheta, candidatePtOf.
  destruct (Uniform gRandom 0 TwoPI) as [phi g1]. cbn [fst snd].
  destruct (Uniform g1 0 PI) as [theta g2]. cbn [fst snd].
  unfold set_registry. cbn [registry config nMassHypos bkgRotationAngleStep
    massPi massProton massKaon massDstar massLc].
  rewrite fillSparses_entries, fillSparses_histograms.
  repeat split; reflexivity.
Qed.

Lemma sameSetup_refl (t : TaskPolarisationCharmHadrons) : sameSetup t t.
Proof. unfold sameSetup; repeat split; reflexivity. Qed.

Lemma sameSetup_trans (t1 t2 t3 : TaskPolarisationCharmHadrons) :
  sameSetup t1 t2 -> sameSetup t2 t3 -> sameSetup t1 t3.
Proof.
  unfold sameSetup. intros H12 H23.
  decompose [and] H12; decompose [and] H23.
  repeat split; congruence.
Qed.

Lemma evaluate_sameSetup (channel : DecayChannel) (withMl : bool)
  (candidate : Cand channel) (bkgRotationId : Z) (iMass : nat) (st : State) :
  sameSetup (fst st) (fst (evaluate channel withMl candidate bkgRotationId iMass st)).
Proof.
  unfold evaluate.
  destruct (kinematics channel withMl (fst st) candidate iMass bkgRotationId) as [k|];
    [|apply sameSetup_refl].
  destruct st as [t g]. cbn [fst].
  destruct (angleAndFill_spec channel withMl k t g) as (_ & _ & _ & H).
  exact H.
Qed.

(** The variables of the Lc branch depend on the read-only part only. *)
Lemma kinematics_sameSetup (channel : DecayChannel) (withMl : bool)
  (t t' : TaskPolarisationCharmHadrons) (candidate : Cand channel)
  (iMass : nat) (bkgRotationId : Z) :
  sameSetup t t' ->
  kinematics channel withMl t' candidate iMass bkgRotationId
  = kinematics channel withMl t candidate iMass bkgRotationId.
Proof.
  unfold sameSetup. intros (Hc & Hn & Hs & Hpi & Hp & Hk & Hd & Hl).
  destruct channel; cbn [kinematics]; [| |reflexivity].
  - unfold kinematicsDstar. rewrite Hpi, Hd. reflexivity.
  - unfold kinematicsLcToPKPi, threeVecLcRotatedProng1, bkgRotAngle.
    rewrite Hc, Hs, Hpi, Hp, Hk, Hl. reflexivity.
Qed.

End Fills.

(** ** The mass-hypothesis loop *)

Section Loop.

Context {ext : Externals}.

Lemma runPolarisationAnalysis_one (channel : DecayChannel) (withMl : bool)
  (candidate : Cand channel) (bkgRotationId : Z) (st : State) :
  nMassHypos (fst st) = 1%nat ->
  runPolarisationAnalysis channel withMl candidate bkgRotationId st
  = evaluate channel withMl candidate bkgRotationId 0%nat st.
Proof. unfold runPolarisationAnalysis. intros ->. reflexivity. Qed.

Lemma runPolarisationAnalysis_two (channel : DecayChannel) (withMl : bool)
  (candidate : Cand channel) (bkgRotationId : Z) (st : State) :
  nMassHypos (fst st) = NMassHypoLcToPKPi ->
  runPolarisationAnalysis channel withMl candidate bkgRotationId st
  = evaluate channel withMl candidate bkgRotationId PiKP
      (evaluate channel withMl candidate bkgRotationId PKPi st).
Proof. unfold runPolarisationAnalysis. intros ->. reflexivity. Qed.

Lemma fold_evaluate_sameSetup (channel : DecayChannel) (withMl : bool)
  (candidate : Cand channel) (bkgRotationId : Z) (l : list nat) (st : State) :
  sameSetup (fst st)
    (fst (fold_left (fun s iMass => evaluate channel withMl candidate bkgRotationId iMass s)
                    l st)).
Proof.
  revert st. induction l as [|iMass l IH]; intros st; cbn [fold_left].
  - apply sameSetup_refl.
  - eapply sameSetup_trans; [|apply IH]. apply evaluate_sameSetup.
Qed.

Lemma runPolarisationAnalysis_sameSetup (channel : DecayChannel) (withMl : bool)
  (candidate : Cand channel) (bkgRotationId : Z) (st : State) :
  sameSetup (fst st)
    (fst (runPolarisationAnalysis channel withMl candidate bkgRotationId st)).
Proof. apply fold_evaluate_sameSetup. Qed.

(** An evaluation reads the read-only part of the task only to decide
    whether it is skipped. *)
Lemma evaluate_skip (channel : DecayChannel) (withMl : bool)
  (candidate : Cand channel) (bkgRotationId : Z) (iMass : nat)
  (t : TaskPolarisationCharmHadrons) (st : State) :
  sameSetup t (fst st) ->
  kinematics channel withMl t candidate iMass bkgRotationId = None ->
  evaluate channel withMl candidate bkgRotationId iMass st = st.
Proof.
  intros Hsame Hnone. unfold evaluate.
  rewrite (kinematics_sameSetup _ _ _ _ _ _ _ Hsame), Hnone. reflexivity.
Qed.

Lemma issuedFills_mass (channel : DecayChannel) (withMl : bool)
  (cfg : Configuration) (k : Kinematics) (candidatePt : R) (c : CosThetaStar) :
  Forall (fun e => massAxisValue e = Some (Finite (invMassCharmHadForSparse k)))
         (issuedFills channel withMl cfg k candidatePt c).
Proof.
  unfold issuedFills, massAxisValue.
  destruct channel;
    destruct (activateTHnSparseCosThStarHelicity cfg),
             (activateTHnSparseCosThStarProduction cfg),
             (activateTHnSparseCosThStarBeam cfg),
             (activateTHnSparseCosThStarRandom cfg);
    cbn [app]; repeat constructor.
Qed.

Lemma issuedFills_rotation_flag (withMl : bool)
  (cfg : Configuration) (k : Kinematics) (candidatePt : R) (c : CosThetaStar) :
  Forall (fun e => rotationAxisValue e = Some (Finite (IZR (isRotatedCandidate k))))
         (issuedFills LcToPKPi withMl cfg k candidatePt c).
Proof.
  unfold issuedFills, rotationAxisValue, fillValues.
  destruct withMl;
    destruct (activateTHnSparseCosThStarHelicity cfg),
             (activateTHnSparseCosThStarProduction cfg),
             (activateTHnSparseCosThStarBeam cfg),
             (activateTHnSparseCosThStarRandom cfg);
    cbn [app rev snd hd_error]; repeat constructor.
Qed.

End Loop.

(** ** Skipped mass hypotheses *)

Section Skip.

Context {ext : Externals}.

Lemma processLc_fold (withMl : bool) (candidate : CandLcToPKPiWSelFlag) (st : State) :
  processLc withMl candidate st
  = fold_left (fun s rot => runPolarisationAnalysis LcToPKPi withMl candidate rot s)
              (allRotationIds (nBkgRotations (config (fst st)))) st.
Proof.
  unfold allRotationIds. cbn [fold_left].
  destruct (runPolarisationAnalysis_sameSetup LcToPKPi withMl candidate 0%Z st)
    as (Hc & _).
  unfold processLc, processLcToPKPi, processLcToPKPiWithMl.
  destruct withMl; rewrite Hc; reflexivity.
Qed.

Variable withMl : bool.
Variable candidate : CandLcToPKPiWSelFlag.
Variable t : TaskPolarisationCharmHadrons.
Variable iMass : nat.

Hypothesis two_hypotheses : nMassHypos t = NMassHypoLcToPKPi.
Hypothesis in_range : (iMass < NMassHypoLcToPKPi)%nat.
Hypothesis below_threshold :
  (lcSelectionFlag candidate iMass < selectionFlagLcToPKPi (config t))%Z.

Lemma run_skips_unselected (bkgRotationId : Z) (st : State) :
  sameSetup t (fst st) ->
  runPolarisationAnalysis LcToPKPi withMl candidate bkgRotationId st
  = evaluate LcToPKPi withMl candidate bkgRotationId (otherHypothesis iMass) st.
Proof.
  intros Hsame.
  pose proof (kinematicsLc_unselected withMl t candidate iMass bkgRotationId
                below_threshold) as Hnone.
  rewrite runPolarisationAnalysis_two
    by (destruct Hsame as (_ & Hn & _); rewrite Hn; exact two_hypotheses).
  unfold NMassHypoLcToPKPi in in_range.
  destruct iMass as [|[|n]]; [| |lia]; unfold otherHypothesis; cbn [Nat.eqb PKPi].
  - rewrite (evaluate_skip LcToPKPi withMl candidate bkgRotationId PKPi t st Hsame Hnone).
    reflexivity.
  - apply (evaluate_skip LcToPKPi withMl candidate bkgRotationId PiKP t); [|exact Hnone].
    eapply sameSetup_trans; [exact Hsame|]. apply evaluate_sameSetup.
Qed.

Lemma fold_run_skips_unselected (rots : list Z) (st : State) :
  sameSetup t (fst st) ->
  fold_left (fun s rot => runPolarisationAnalysis LcToPKPi withMl candidate rot s) rots st
  = fold_left (fun s rot => evaluate LcToPKPi withMl candidate rot (otherHypothesis iMass) s)
              rots st.
Proof.
  revert st. induction rots as [|rot rots IH]; intros st Hsame; cbn [fold_left].
  - reflexivity.
  - rewrite run_skips_unselected by exact Hsame.
    apply IH. eapply sameSetup_trans; [exact Hsame|]. apply evaluate_sameSetup.
Qed.

End Skip.


(** ** The D* channel *)

Section Dstar.

Context {ext : Externals}.

Lemma issuedFills_length (channel : DecayChannel) (withMl : bool)
  (cfg : Configuration) (k : Kinematics) (candidatePt : R) (c : CosThetaStar) :
  channel <> LcToPK0S ->
  Z.of_nat (List.length (issuedFills channel withMl cfg k candidatePt c)) = nSparses cfg.
Proof.
  intros Hch. rewrite nSparses_eq. unfold issuedFills.
  destruct channel; [| |congruence];
    destruct (activateTHnSparseCosThStarHelicity cfg),
             (activateTHnSparseCosThStarProduction cfg),
             (activateTHnSparseCosThStarBeam cfg),
             (activateTHnSparseCosThStarRandom cfg); reflexivity.
Qed.

(** C8. For every D* candidate the parent invariant mass is the one of
    the particle hypothesis when the soft-pion charge is positive and the
    one of the antiparticle hypothesis otherwise, and the value filled on
    the mass axis of every sparse histogram is that D* mass minus the mass
    of the corresponding D0 (or D0-bar), not the D* mass itself. *)
Theorem C8_dstar_mass_axis_is_mass_difference
  (candidate : CandDstarWSelFlag) (st : State) :
  nMassHypos (fst st) = 1%nat ->
  let k := kinematicsDstar false (fst st) candidate in
  ((signSoftPi candidate > 0)%Z ->
   invMassCharmHad k = invMassDstar candidate
   /\ invMassCharmHadForSparse k = invMassDstar candidate - invMassD0 candidate)
  /\ ((signSoftPi candidate <= 0)%Z ->
      invMassCharmHad k = invMassAntiDstar candidate
      /\ invMassCharmHadForSparse k
         = invMassAntiDstar candidate - invMassD0Bar candidate)
  /\ M (fourVecMother k) = invMassCharmHad k
  /\ exists new,
       entries (registry (fst (processDstar candidate st)))
       = entries (registry (fst st)) ++ new
       /\ Z.of_nat (List.length new) = nSparses (config (fst st))
       /\ Forall (fun e => massAxisValue e = Some (Finite (dstarMassDifference candidate)))
                 new.
Proof.
  intros Hone k.
  assert (invMassCharmHadForSparse k = dstarMassDifference candidate) as Hdiff.
  { unfold k, kinematicsDstar, dstarMassDifference. cbn [invMassCharmHadForSparse].
    destruct (signSoftPi candidate >? 0)%Z; reflexivity. }
  split; [|split; [|split; [reflexivity|]]].
  - intros Hpos. unfold k, kinematicsDstar.
    cbn [invMassCharmHad invMassCharmHadForSparse].
    assert ((signSoftPi candidate >? 0)%Z = true) as -> by lia.
    split; reflexivity.
  - intros Hneg. unfold k, kinematicsDstar.
    cbn [invMassCharmHad invMassCharmHadForSparse].
    assert ((signSoftPi candidate >? 0)%Z = false) as -> by lia.
    split; reflexivity.
  - unfold processDstar. rewrite runPolarisationAnalysis_one by exact Hone.
    unfold evaluate. cbn [kinematics]. fold k.
    destruct st as [t g]. cbn [fst] in *.
    destruct (angleAndFill_spec DstarToDzeroPi false k t g) as (_ & Hentries & _).
    eexists. split; [exact Hentries|]. split.
    + apply issuedFills_length. discriminate.
    + rewrite <- Hdiff. apply issuedFills_mass.
Qed.

End Dstar.

(** ** The dispatcher *)

Section Dispatcher.

Context {ext : Externals}.

Lemma fold_left_map_pairs {A B S : Type} (f : S -> B -> S) (g : A -> B)
  (l : list A) (s : S) :
  fold_left f (map g l) s = fold_left (fun s a => f s (g a)) l s.
Proof. revert s. induction l as [|a l IH]; intros s; cbn; [reflexivity|apply IH]. Qed.

Lemma fold_evaluateAll_sameSetup (channel : DecayChannel) (withMl : bool)
  (candidate : Cand channel) (pairs : list (nat * Z)) (st : State) :
  sameSetup (fst st) (fst (evaluateAll channel withMl candidate pairs st)).
Proof.
  unfold evaluateAll. revert st.
  induction pairs as [|p pairs IH]; intros st; cbn [fold_left].
  - apply sameSetup_refl.
  - eapply sameSetup_trans; [|apply IH]. apply evaluate_sameSetup.
Qed.

(** One call of [runPolarisationAnalysis] goes through the mass hypotheses
    of its rotation index. *)
Lemma run_is_evaluateAll (channel : DecayChannel) (withMl : bool)
  (candidate : Cand channel) (rot : Z) (st : State) :
  runPolarisationAnalysis channel withMl candidate rot st
  = evaluateAll channel withMl candidate
      (evaluationPairs (nMassHypos (fst st)) [rot]) st.
Proof.
  unfold runPolarisationAnalysis, evaluateAll, evaluationPairs.
  cbn [flat_map]. rewrite app_nil_r, fold_left_map_pairs. reflexivity.
Qed.

Lemma fold_run_is_evaluateAll (channel : DecayChannel) (withMl : bool)
  (candidate : Cand channel) (t : TaskPolarisationCharmHadrons)
  (rots : list Z) (st : State) :
  sameSetup t (fst st) ->
  fold_left (fun s rot => runPolarisationAnalysis channel withMl candidate rot s) rots st
  = evaluateAll channel withMl candidate (evaluationPairs (nMassHypos t) rots) st.
Proof.
  revert st. induction rots as [|rot rots IH]; intros st Hsame; cbn [fold_left].
  - reflexivity.
  - rewrite IH
      by (eapply sameSetup_trans;
          [exact Hsame|apply runPolarisationAnalysis_sameSetup]).
    rewrite run_is_evaluateAll.
    destruct Hsame as (_ & Hn & _). rewrite Hn.
    unfold evaluateAll, evaluationPairs. cbn [flat_map].
    rewrite app_nil_r, fold_left_app. reflexivity.
Qed.

Lemma in_rotationIds (nBkgRotations rot : Z) :
  In rot (rotationIds nBkgRotations) <-> (1 <= rot <= nBkgRotations)%Z.
Proof.
  unfold rotationIds. rewrite in_map_iff. split.
  - intros (i & <- & Hi). apply in_seq in Hi. lia.
  - intros Hrot. exists (Z.to_nat rot). split; [lia|]. apply in_seq. lia.
Qed.

Lemma in_allRotationIds (nBkgRotations rot : Z) :
  (0 <= nBkgRotations)%Z ->
  In rot (allRotationIds nBkgRotations) <-> (0 <= rot <= nBkgRotations)%Z.
Proof.
  intros HN. unfold allRotationIds. cbn [In]. rewrite in_rotationIds. lia.
Qed.

Lemma NoDup_allRotationIds (nBkgRotations : Z) : NoDup (allRotationIds nBkgRotations).
Proof.
  unfold allRotationIds. constructor.
  - rewrite in_rotationIds. lia.
  - unfold rotationIds. apply Injective_map_NoDup.
    + intros a b. lia.
    + apply seq_NoDup.
Qed.

Lemma in_evaluationPairs (nMass : nat) (rots : list Z) (iMass : nat) (rot : Z) :
  In (iMass, rot) (evaluationPairs nMass rots) <-> (iMass < nMass)%nat /\ In rot rots.
Proof.
  unfold evaluationPairs. rewrite in_flat_map. split.
  - intros (r & Hr & Hin). apply in_map_iff in Hin.
    destruct Hin as (m & [= <- <-] & Hm). apply in_seq in Hm. split; [lia|exact Hr].
  - intros (Hm & Hr). exists rot. split; [exact Hr|].
    apply in_map_iff. exists iMass. split; [reflexivity|]. apply in_seq. lia.
Qed.

Lemma NoDup_evaluationPairs (nMass : nat) (rots : list Z) :
  NoDup rots -> NoDup (evaluationPairs nMass rots).
Proof.
  unfold evaluationPairs. induction 1 as [|rot rots Hnin Hnd IH]; cbn [flat_map].
  - constructor.
  - apply NoDup_app; [|exact IH|].
    + apply Injective_map_NoDup; [|apply seq_NoDup].
      intros a b [= ->]. reflexivity.
    + intros [m r] Hin1 Hin2. apply in_map_iff in Hin1.
      destruct Hin1 as (m' & [= <- <-] & _).
      apply (in_evaluationPairs nMass rots m' rot) in Hin2.
      destruct Hin2 as [_ Hin2]. contradiction.
Qed.

Lemma length_evaluationPairs (nMass : nat) (rots : list Z) :
  List.length (evaluationPairs nMass rots) = (List.length rots * nMass)%nat.
Proof.
  unfold evaluationPairs. induction rots as [|rot rots IH]; cbn [flat_map List.length].
  - reflexivity.
  - rewrite length_app, length_map, length_seq, IH. lia.
Qed.

Lemma length_allRotationIds (nBkgRotations : Z) :
  (0 <= nBkgRotations)%Z ->
  Z.of_nat (List.length (allRotationIds nBkgRotations)) = (nBkgRotations + 1)%Z.
Proof.
  intros HN. unfold allRotationIds, rotationIds.
  cbn [List.length]. rewrite length_map, length_seq. lia.
Qed.

End Dispatcher.

Section DispatcherClaim.

Context {ext : Externals}.

Lemma processLc_is_evaluateAll (withMl : bool) (t : TaskPolarisationCharmHadrons)
  (candidate : CandLcToPKPiWSelFlag) (st : State) :
  sameSetup t (fst st) ->
  processLc withMl candidate st
  = evaluateAll LcToPKPi withMl candidate
      (evaluationPairs (nMassHypos t) (allRotationIds (nBkgRotations (config t)))) st.
Proof.
  intros Hsame. rewrite processLc_fold.
  destruct Hsame as (Hc & Hrest). rewrite Hc.
  apply fold_run_is_evaluateAll. split; assumption.
Qed.

(** The D* process function with ML is a stub: it evaluates nothing. *)
Remark processDstarWithMl_is_a_stub (candidate : CandDstarWSelFlag) (st : State) :
  processDstarWithMl candidate st = st.
Proof. reflexivity. Qed.

End DispatcherClaim.

(** ** The four cosines *)

Section Angles.

Context {ext : Externals}.

Lemma Mag2_nonneg (a : XYZVector) : 0 <= Mag2 a.
Proof. unfold Mag2. nra. Qed.

Lemma sqrt_Mag2_zero (a : XYZVector) : sqrt (Mag2 a) = 0 <-> Mag2 a = 0.
Proof.
  split.
  - apply sqrt_eq_0, Mag2_nonneg.
  - intros ->. apply sqrt_0.
Qed.

Lemma sqrt_Mag2_pos (a : XYZVector) : Mag2 a <> 0 -> 0 < sqrt (Mag2 a).
Proof.
  intros Ha. apply sqrt_lt_R0.
  destruct (Mag2_nonneg a) as [Hlt|Heq]; [exact Hlt|congruence].
Qed.

Lemma Cauchy_Schwarz (a b : XYZVector) : Dot a b * Dot a b <= Mag2 a * Mag2 b.
Proof.
  destruct a as [a1 a2 a3], b as [b1 b2 b3]. unfold Dot, Mag2. cbn [X Y Z_].
  assert (0 <= (a1 * b2 - a2 * b1) * (a1 * b2 - a2 * b1)
               + (a1 * b3 - a3 * b1) * (a1 * b3 - a3 * b1)
               + (a2 * b3 - a3 * b2) * (a2 * b3 - a3 * b2)) as Hcross.
  { pose proof (Rle_0_sqr (a1 * b2 - a2 * b1)) as H1.
    pose proof (Rle_0_sqr (a1 * b3 - a3 * b1)) as H2.
    pose proof (Rle_0_sqr (a2 * b3 - a3 * b2)) as H3.
    unfold Rsqr in *. lra. }
  nra.
Qed.

Lemma ratio_in_unit_interval (d q : R) :
  0 < q -> d * d <= q * q -> -1 <= d / q <= 1.
Proof.
  intros Hq Hd. assert (- q <= d <= q) as Hdq by nra.
  assert (0 < / q) as Hi by (apply Rinv_0_lt_compat; exact Hq).
  assert (q * / q = 1) as Hqi by (apply Rinv_r; lra).
  unfold Rdiv. split; nra.
Qed.

Lemma fdiv_zero (x : float) : fdiv x 0 = NonFinite.
Proof.
  unfold fdiv. destruct x; [|reflexivity].
  destruct (Req_dec_T 0 0) as [_|Hne]; [reflexivity|contradiction].
Qed.

Lemma fdiv_nonzero (a d : R) : d <> 0 -> fdiv (Finite a) d = Finite (a / d).
Proof.
  intros Hd. unfold fdiv.
  destruct (Req_dec_T d 0) as [He|_]; [contradiction|reflexivity].
Qed.

Lemma fdiv_NonFinite (d : R) : fdiv NonFinite d = NonFinite.
Proof. reflexivity. Qed.

(** Dividing by [x] and then by [y] is dividing by [y * x]. *)
Lemma fdiv_fdiv (a x y : R) :
  fdiv (fdiv (Finite a) x) y = fdiv (Finite a) (y * x).
Proof.
  destruct (Req_dec_T x 0) as [->|Hx].
  - rewrite Rmult_0_r, !fdiv_zero. reflexivity.
  - destruct (Req_dec_T y 0) as [->|Hy].
    + rewrite Rmult_0_l, !fdiv_zero. reflexivity.
    + rewrite (fdiv_nonzero a x Hx), (fdiv_nonzero _ y Hy).
      rewrite fdiv_nonzero by (apply Rmult_integral_contrapositive; split; assumption).
      f_equal. field. split; assumption.
Qed.

Lemma randomVec_unit (phiRandom thetaRandom : R) :
  Mag2 (randomVec phiRandom thetaRandom) = 1.
Proof.
  unfold Mag2, randomVec. cbn [X Y Z_].
  pose proof (sin2_cos2 phiRandom) as Hp. pose proof (sin2_cos2 thetaRandom) as Ht.
  unfold Rsqr in *.
  replace (sin thetaRandom * cos phiRandom * (sin thetaRandom * cos phiRandom)
           + sin thetaRandom * sin phiRandom * (sin thetaRandom * sin phiRandom)
           + cos thetaRandom * cos thetaRandom)
    with (sin thetaRandom * sin thetaRandom
          * (sin phiRandom * sin phiRandom + cos phiRandom * cos phiRandom)
          + cos thetaRandom * cos thetaRandom) by ring.
  rewrite Hp. lra.
Qed.

Lemma beamVec_unit : Mag2 beamVec = 1.
Proof. unfold Mag2, beamVec. cbn [X Y Z_]. ring. Qed.

Lemma cosineToAxis_bounded (A p : XYZVector) :
  Mag2 A <> 0 -> Mag2 p <> 0 -> isCosine (cosineToAxis A p).
Proof.
  intros HA Hp. unfold isCosine, cosineToAxis.
  pose proof (sqrt_Mag2_pos A HA) as HsA. pose proof (sqrt_Mag2_pos p Hp) as Hsp.
  assert (0 < sqrt (Mag2 A) * sqrt (Mag2 p)) as Hq by (apply Rmult_lt_0_compat; assumption).
  rewrite fdiv_nonzero by lra.
  eexists; split; [reflexivity|].
  apply ratio_in_unit_interval; [exact Hq|].
  replace (sqrt (Mag2 A) * sqrt (Mag2 p) * (sqrt (Mag2 A) * sqrt (Mag2 p)))
    with (sqrt (Mag2 A) * sqrt (Mag2 A) * (sqrt (Mag2 p) * sqrt (Mag2 p))) by ring.
  rewrite !sqrt_sqrt by apply Mag2_nonneg.
  apply Cauchy_Schwarz.
Qed.

Lemma cosineToUnitAxis_bounded (A p : XYZVector) :
  Mag2 A = 1 -> Mag2 p <> 0 -> isCosine (cosineToUnitAxis A p).
Proof.
  intros HA Hp. unfold isCosine, cosineToUnitAxis.
  pose proof (sqrt_Mag2_pos p Hp) as Hsp.
  rewrite fdiv_nonzero by lra.
  eexists; split; [reflexivity|].
  apply ratio_in_unit_interval; [exact Hsp|].
  rewrite sqrt_sqrt by apply Mag2_nonneg.
  pose proof (Cauchy_Schwarz A p) as Hcs. rewrite HA in Hcs. lra.
Qed.

Lemma cosThetaStar_spec (k : Kinematics) (phiRandom thetaRandom : R) :
  let c := cosThetaStar k phiRandom thetaRandom in
  cosThetaStarHelicity c = cosineToAxis (helicityVec k) (threeVecDauCM k)
  /\ cosThetaStarProduction c = cosineToAxis (normalVec k) (threeVecDauCM k)
  /\ cosThetaStarBeam c = cosineToUnitAxis beamVec (threeVecDauCM k)
  /\ cosThetaStarRandom c
     = cosineToUnitAxis (randomVec phiRandom thetaRandom) (threeVecDauCM k).
Proof.
  cbv zeta. unfold cosThetaStar, cosineToAxis, cosineToUnitAxis.
  cbn [cosThetaStarHelicity cosThetaStarProduction cosThetaStarBeam cosThetaStarRandom].
  rewrite !fdiv_fdiv. repeat split; reflexivity.
Qed.

End Angles.

Section AngleClaims.

Context {ext : Externals}.

Lemma issuedFills_cosine (channel : DecayChannel) (withMl : bool)
  (cfg : Configuration) (k : Kinematics) (candidatePt : R) (c : CosThetaStar)
  (x : float) :
  cosThetaStarHelicity c = x -> cosThetaStarProduction c = x ->
  cosThetaStarBeam c = x -> cosThetaStarRandom c = x ->
  Forall (fun e => cosineAxisValue e = Some x)
         (issuedFills channel withMl cfg k candidatePt c).
Proof.
  intros Hh Hp Hb Hr. unfold issuedFills, cosineAxisValue, fillValues.
  destruct channel;
    destruct (activateTHnSparseCosThStarHelicity cfg),
             (activateTHnSparseCosThStarProduction cfg),
             (activateTHnSparseCosThStarBeam cfg),
             (activateTHnSparseCosThStarRandom cfg);
    cbn [app]; rewrite ?Hh, ?Hp, ?Hb, ?Hr; repeat constructor.
Qed.

(** C2. For every evaluation the four cosines are computed from the
    momentum of the probe in the rest frame of the parent (the probe
    four-vector boosted with the parent's boost to its centre of mass):
    (A . p) / (|A| |p|) for the helicity axis, which is the parent
    momentum, and for the production-normal axis (py, -px, 0) of the
    parent; (A . p) / |p|, without a factor |A|, for the beam axis
    (0, 0, 1) and for the random axis, a unit vector built from the two
    sampled angles.  These are the cosines that the fills carry. *)
Theorem C2_cosines_from_rest_frame_momentum (k : Kinematics)
  (phiRandom thetaRandom : R) :
  let parent :=
    mkPxPyPzM (pxCharmHad k) (pyCharmHad k) (pzCharmHad k) (invMassCharmHad k) in
  let probe := mkPxPyPzM (pxDau k) (pyDau k) (pzDau k) (massDau k) in
  let pCM := Vect (Boost (BoostToCM parent) probe) in
  let randomAxis :=
    mkXYZ (sin thetaRandom * cos phiRandom) (sin thetaRandom * sin phiRandom)
          (cos thetaRandom) in
  let c := cosThetaStar k phiRandom thetaRandom in
  cosThetaStarHelicity c
  = cosineToAxis (mkXYZ (pxCharmHad k) (pyCharmHad k) (pzCharmHad k)) pCM
  /\ cosThetaStarProduction c
     = cosineToAxis (mkXYZ (pyCharmHad k) (- pxCharmHad k) 0) pCM
  /\ cosThetaStarBeam c = cosineToUnitAxis (mkXYZ 0 0 1) pCM
  /\ cosThetaStarRandom c = cosineToUnitAxis randomAxis pCM
  /\ Mag2 (mkXYZ 0 0 1) = 1
  /\ Mag2 randomAxis = 1
  /\ forall channel withMl t gRandom,
       entries (registry (fst (angleAndFill channel withMl k (t, gRandom))))
       = entries (registry t)
         ++ issuedFills channel withMl (config t) k
              (sqrt (pxCharmHad k * pxCharmHad k + pyCharmHad k * pyCharmHad k))
              (cosThetaStar k (fst (Uniform gRandom 0 TwoPI))
                 (fst (Uniform (snd (Uniform gRandom 0 TwoPI)) 0 PI))).
Proof.
  cbv zeta.
  destruct (cosThetaStar_spec k phiRandom thetaRandom) as (Hh & Hp & Hb & Hr).
  split; [exact Hh|]. split; [exact Hp|]. split; [exact Hb|]. split; [exact Hr|].
  split; [exact beamVec_unit|].
  split; [exact (randomVec_unit phiRandom thetaRandom)|].
  intros channel withMl t gRandom.
  destruct (angleAndFill_spec channel withMl k t gRandom) as (_ & Hentries & _).
  exact Hentries.
Qed.

Lemma cosThetaStar_zero_momentum (k : Kinematics) (phiRandom thetaRandom : R) :
  Mag2 (threeVecDauCM k) = 0 ->
  let c := cosThetaStar k phiRandom thetaRandom in
  cosThetaStarHelicity c = NonFinite
  /\ cosThetaStarProduction c = NonFinite
  /\ cosThetaStarBeam c = NonFinite
  /\ cosThetaStarRandom c = NonFinite.
Proof.
  intros Hcm. cbv zeta.
  destruct (cosThetaStar_spec k phiRandom thetaRandom) as (Hh & Hp & Hb & Hr).
  rewrite Hh, Hp, Hb, Hr. unfold cosineToAxis, cosineToUnitAxis.
  rewrite (proj2 (sqrt_Mag2_zero _) Hcm), !Rmult_0_r, !fdiv_zero.
  repeat split; reflexivity.
Qed.

(** X16. In real arithmetic (the rounding of the float and double
    operations is not modelled), an evaluation whose rest-frame probe
    momentum is not null has its four cosine formulas in [-1, 1] (for the
    helicity and production axes when that axis is not null either).  When
    the rest-frame probe momentum is exactly null the divisions, which are
    not guarded, are divisions by zero: the four cosines are non-finite, no
    error is raised and the fills are issued all the same, with the
    non-finite value on the cosine axis. *)
Theorem X16_cosine_formulas_in_real_arithmetic (k : Kinematics)
  (phiRandom thetaRandom : R) :
  let c := cosThetaStar k phiRandom thetaRandom in
  (Mag2 (threeVecDauCM k) <> 0 ->
   (Mag2 (helicityVec k) <> 0 -> isCosine (cosThetaStarHelicity c))
   /\ (Mag2 (normalVec k) <> 0 -> isCosine (cosThetaStarProduction c))
   /\ isCosine (cosThetaStarBeam c)
   /\ isCosine (cosThetaStarRandom c))
  /\ (Mag2 (threeVecDauCM k) = 0 ->
      cosThetaStarHelicity c = NonFinite
      /\ cosThetaStarProduction c = NonFinite
      /\ cosThetaStarBeam c = NonFinite
      /\ cosThetaStarRandom c = NonFinite
      /\ forall channel withMl t gRandom,
           channel <> LcToPK0S ->
           exists new,
             entries (registry (fst (angleAndFill channel withMl k (t, gRandom))))
             = entries (registry t) ++ new
             /\ Z.of_nat (List.length new) = nSparses (config t)
             /\ Forall (fun e => cosineAxisValue e = Some NonFinite) new).
Proof.
  cbv zeta. split.
  - intros Hcm.
    destruct (cosThetaStar_spec k phiRandom thetaRandom) as (Hh & Hp & Hb & Hr).
    rewrite Hh, Hp, Hb, Hr.
    split; [intros HA; apply cosineToAxis_bounded; assumption|].
    split; [intros HA; apply cosineToAxis_bounded; assumption|].
    split; apply cosineToUnitAxis_bounded;
      [exact beamVec_unit|exact Hcm|apply randomVec_unit|exact Hcm].
  - intros Hcm.
    destruct (cosThetaStar_zero_momentum k phiRandom thetaRandom Hcm)
      as (Hh0 & Hp0 & Hb0 & Hr0).
    split; [exact Hh0|]. split; [exact Hp0|]. split; [exact Hb0|]. split; [exact Hr0|].
    intros channel withMl t gRandom Hch.
    destruct (angleAndFill_spec channel withMl k t gRandom) as (_ & Hentries & _).
    eexists. split; [exact Hentries|]. split.
    + apply issuedFills_length; exact Hch.
    + destruct (cosThetaStar_zero_momentum k (drawnPhi gRandom) (drawnTheta gRandom) Hcm)
        as (Hh1 & Hp1 & Hb1 & Hr1).
      apply issuedFills_cosine; assumption.
Qed.

End AngleClaims.

(** ** A Lc candidate selected as pKpi only *)

Section PKPiOnly.

Context {ext : Externals}.

Lemma production_is_not_helicity :
  String.eqb hSparseCharmPolarisationProduction hSparseCharmPolarisationHelicity = false.
Proof. reflexivity. Qed.

Lemma beam_is_not_helicity :
  String.eqb hSparseCharmPolarisationBeam hSparseCharmPolarisationHelicity = false.
Proof. reflexivity. Qed.

Lemma random_is_not_helicity :
  String.eqb hSparseCharmPolarisationRandom hSparseCharmPolarisationHelicity = false.
Proof. reflexivity. Qed.

(** With the helicity histogram enabled, one evaluation adds one entry to
    it. *)
Lemma issuedFills_helicity (channel : DecayChannel) (withMl : bool)
  (cfg : Configuration) (k : Kinematics) (candidatePt : R) (c : CosThetaStar) :
  channel <> LcToPK0S ->
  activateTHnSparseCosThStarHelicity cfg = true ->
  map snd (filter (fun e => String.eqb (fst e) hSparseCharmPolarisationHelicity)
                  (issuedFills channel withMl cfg k candidatePt c))
  = [fillValues channel withMl k candidatePt (cosThetaStarHelicity c)].
Proof.
  intros Hch Hact. unfold issuedFills. rewrite Hact.
  destruct channel; [| |congruence];
    destruct (activateTHnSparseCosThStarProduction cfg),
             (activateTHnSparseCosThStarBeam cfg),
             (activateTHnSparseCosThStarRandom cfg);
    cbn [app filter fst];
    rewrite String.eqb_refl, ?production_is_not_helicity, ?beam_is_not_helicity,
      ?random_is_not_helicity; reflexivity.
Qed.

(** The helicity histogram after the mass-hypothesis loop on a candidate
    selected as pKpi only: one more entry, made from the pKpi variables. *)
Lemma run_pKpi_only_helicity (withMl : bool) (candidate : CandLcToPKPiWSelFlag)
  (bkgRotationId : Z) (st : State) :
  nMassHypos (fst st) = NMassHypoLcToPKPi ->
  (isSelLcToPKPi candidate >= selectionFlagLcToPKPi (config (fst st)))%Z ->
  (isSelLcToPiKP candidate < selectionFlagLcToPKPi (config (fst st)))%Z ->
  activateTHnSparseCosThStarHelicity (config (fst st)) = true ->
  exists k cosHelicity,
    kinematicsLcToPKPi withMl (fst st) candidate PKPi bkgRotationId = Some k
    /\ entriesOf hSparseCharmPolarisationHelicity
         (registry (fst (runPolarisationAnalysis LcToPKPi withMl candidate
                           bkgRotationId st)))
       = entriesOf hSparseCharmPolarisationHelicity (registry (fst st))
         ++ [fillValues LcToPKPi withMl k (candidatePtOf k) cosHelicity].
Proof.
  intros Htwo Hpkpi Hpikp Hact.
  assert (PiKP < NMassHypoLcToPKPi)%nat as H1
      by (unfold PiKP, NMassHypoLcToPKPi; lia).
  assert (PKPi < NMassHypoLcToPKPi)%nat as H0
      by (unfold PKPi, NMassHypoLcToPKPi; lia).
  rewrite (run_skips_unselected withMl candidate (fst st) PiKP Htwo H1 Hpikp
             bkgRotationId st (sameSetup_refl _)).
  destruct (kinematicsLc_selected withMl (fst st) candidate PKPi bkgRotationId H0 Hpkpi)
    as (k & Hk & _).
  exists k. change (otherHypothesis PiKP) with PKPi.
  unfold evaluate. cbn [kinematics]. rewrite Hk. destruct st as [t g]. cbn [fst] in *.
  destruct (angleAndFill_spec LcToPKPi withMl k t g) as (_ & Hentries & _).
  eexists. split; [reflexivity|].
  rewrite (entriesOf_app _ _ _ _ Hentries).
  rewrite issuedFills_helicity by (discriminate || exact Hact).
  reflexivity.
Qed.

Lemma processLcToPKPiWithMl_no_rotation (candidate : CandLcToPKPiWSelFlag) (st : State) :
  (nBkgRotations (config (fst st)) <= 0)%Z ->
  processLcToPKPiWithMl candidate st
  = runPolarisationAnalysis LcToPKPi true candidate 0%Z st.
Proof.
  intros HN. change (processLcToPKPiWithMl candidate st) with (processLc true candidate st).
  rewrite processLc_fold. unfold allRotationIds, rotationIds.
  replace (Z.to_nat (nBkgRotations (config (fst st)))) with 0%nat by lia.
  reflexivity.
Qed.

(** C4 (amended). In ML mode, a non-rotated Lc candidate that satisfies the
    pKpi hypothesis only adds exactly one entry to the helicity histogram
    (when it is enabled), with rotation flag 0, whatever the size of its
    ML probability vector: the entry carries the first and third score
    when the size is 3, and is filled all the same, with the two ML fields
    at the sentinel -1, when it is not. *)
Theorem C4_one_helicity_entry_with_or_without_scores
  (candidate : CandLcToPKPiWSelFlag) (st : State) :
  nMassHypos (fst st) = NMassHypoLcToPKPi ->
  (isSelLcToPKPi candidate >= selectionFlagLcToPKPi (config (fst st)))%Z ->
  (isSelLcToPiKP candidate < selectionFlagLcToPKPi (config (fst st)))%Z ->
  activateTHnSparseCosThStarHelicity (config (fst st)) = true ->
  ((nBkgRotations (config (fst st)) <= 0)%Z ->
   processLcToPKPiWithMl candidate st
   = runPolarisationAnalysis LcToPKPi true candidate 0%Z st)
  /\ exists pt y cosHelicity mlBkg mlNonPrompt,
       entriesOf hSparseCharmPolarisationHelicity
         (registry (fst (runPolarisationAnalysis LcToPKPi true candidate 0%Z st)))
       = entriesOf hSparseCharmPolarisationHelicity (registry (fst st))
         ++ [[Finite (invMassLcToPKPi candidate); Finite pt; Finite (pz candidate);
              Finite y; cosHelicity; Finite mlBkg; Finite mlNonPrompt; Finite 0]]
       /\ (List.length (mlProbLcToPKPi candidate) = 3%nat ->
           mlBkg = nth 0 (mlProbLcToPKPi candidate) 0
           /\ mlNonPrompt = nth 2 (mlProbLcToPKPi candidate) 0)
       /\ (List.length (mlProbLcToPKPi candidate) <> 3%nat ->
           mlBkg = -1 /\ mlNonPrompt = -1).
Proof.
  intros Htwo Hpkpi Hpikp Hact.
  split; [apply processLcToPKPiWithMl_no_rotation|].
  destruct (run_pKpi_only_helicity true candidate 0%Z st Htwo Hpkpi Hpikp Hact)
    as (k & cosH & Hk & Hentries).
  assert (PKPi < NMassHypoLcToPKPi)%nat as H0
      by (unfold PKPi, NMassHypoLcToPKPi; lia).
  destruct (kinematicsLc_selected true (fst st) candidate PKPi 0%Z H0 Hpkpi)
    as (k' & Hk' & _ & _ & Hrot & _ & _ & Hpz & Hm & Hms & Hml).
  rewrite Hk in Hk'. injection Hk' as <-.
  cbn [Z.gtb Z.compare Z.eqb] in Hrot, Hpz, Hm.
  unfold unrotatedInvMass in Hm. cbn [Nat.eqb PKPi] in Hm, Hml.
  exists (candidatePtOf k), (rapidity k), cosH, (at0 (outputMl k)), (at2 (outputMl k)).
  split.
  - rewrite Hentries. unfold fillValues. cbn [app].
    rewrite Hms, Hm, Hpz, Hrot. reflexivity.
  - rewrite Hml. unfold copyMl. split.
    + intros ->. cbn [Nat.eqb at0 at2 fst snd]. split; reflexivity.
    + intros Hlen. apply Nat.eqb_neq in Hlen. rewrite Hlen.
      cbn [at0 at2 fst snd]. split; reflexivity.
Qed.

End PKPiOnly.

(** ** The statements on concrete inputs *)

Lemma C3_rotation_zero_is_identity_witness :
  exists t,
    init (ext := Reference.externals) (Reference.configuration 2 false false true false)
    = Initialised t
    /\ (PKPi < NMassHypoLcToPKPi)%nat
    /\ (lcSelectionFlag Reference.lcPKPiOnly PKPi >= selectionFlagLcToPKPi (config t))%Z
    /\ exists k,
         kinematicsLcToPKPi (ext := Reference.externals) false t Reference.lcPKPiOnly PKPi 0
         = Some k
         /\ pzCharmHad k = 1 /\ isRotatedCandidate k = 0%Z.
Proof.
  eexists. split; [reflexivity|].
  assert (PKPi < NMassHypoLcToPKPi)%nat as Hi by (unfold PKPi, NMassHypoLcToPKPi; lia).
  split; [exact Hi|].
  match goal with
  | |- (?a >= ?b)%Z /\ _ => assert (a >= b)%Z as Hsel by (cbn; lia)
  end.
  split; [exact Hsel|].
  destruct (C3_rotation_zero_is_identity (ext := Reference.externals) false _
              Reference.lcPKPiOnly PKPi Hi Hsel)
    as (k & Hk & _ & _ & Hpz & _ & _ & Hrot & _).
  exists k. split; [exact Hk|]. split; [exact Hpz|exact Hrot].
Defined.

Lemma C4_one_helicity_entry_witness :
  exists t,
    init (ext := Reference.externals) (Reference.configuration 0 false false false true)
    = Initialised t
    /\ nMassHypos t = NMassHypoLcToPKPi
    /\ (isSelLcToPKPi Reference.lcPKPiOnly >= selectionFlagLcToPKPi (config t))%Z
    /\ (isSelLcToPiKP Reference.lcPKPiOnly < selectionFlagLcToPKPi (config t))%Z
    /\ activateTHnSparseCosThStarHelicity (config t) = true
    /\ List.length
         (entriesOf hSparseCharmPolarisationHelicity
            (registry (fst (runPolarisationAnalysis (ext := Reference.externals)
                              LcToPKPi true Reference.lcPKPiOnly 0%Z (t, [])))))
       = 1%nat.
Proof.
  eexists. split; [reflexivity|].
  split; [reflexivity|].
  match goal with
  | |- (?a >= ?b)%Z /\ _ => assert (a >= b)%Z as Hpkpi by (cbn; lia)
  end.
  split; [exact Hpkpi|].
  match goal with
  | |- (?a < ?b)%Z /\ _ => assert (a < b)%Z as Hpikp by (cbn; lia)
  end.
  split; [exact Hpikp|].
  split; [reflexivity|].
  match goal with
  | |- context [runPolarisationAnalysis _ _ _ _ (?t, ?g)] =>
      destruct (C4_one_helicity_entry_with_or_without_scores (ext := Reference.externals)
                  Reference.lcPKPiOnly (t, g) eq_refl Hpkpi Hpikp eq_refl)
        as (_ & pt & y & cosH & mlBkg & mlNonPrompt & Hentries & _)
  end.
  rewrite Hentries. reflexivity.
Defined.

Lemma C4_counterexample :
  exists t,
    init (ext := Reference.externals) (Reference.configuration 0 false false false true)
    = Initialised t
    /\ List.length (mlProbLcToPKPi Reference.lcPKPiOnly) <> 3%nat
    /\ entriesOf hSparseCharmPolarisationHelicity (registry t) = []
    /\ exists v,
         entriesOf hSparseCharmPolarisationHelicity
           (registry (fst (processLcToPKPiWithMl (ext := Reference.externals)
                             Reference.lcPKPiOnly (t, []))))
         = [v]
         /\ nth_error v 5 = Some (Finite (-1))
         /\ nth_error v 6 = Some (Finite (-1))
         /\ nth_error v 7 = Some (Finite 0).
Proof.
  eexists. split; [reflexivity|].
  split; [cbn; discriminate|].
  split; [reflexivity|].
  match goal with
  | |- context [processLcToPKPiWithMl _ (?t, ?g)] =>
      rewrite (processLcToPKPiWithMl_no_rotation (ext := Reference.externals)
                 Reference.lcPKPiOnly (t, g)) by (cbn; lia);
      assert (isSelLcToPKPi Reference.lcPKPiOnly >= selectionFlagLcToPKPi (config t))%Z
        as Hpkpi by (cbn; lia);
      destruct (run_pKpi_only_helicity (ext := Reference.externals) true
                  Reference.lcPKPiOnly 0%Z (t, g) eq_refl Hpkpi)
        as (k & cosH & Hk & Hentries); [cbn; lia|reflexivity|];
      destruct (kinematicsLc_selected (ext := Reference.externals) true t
                  Reference.lcPKPiOnly PKPi 0%Z (Nat.lt_0_succ 1) Hpkpi)
        as (k' & Hk' & _ & _ & Hrot & _ & _ & _ & _ & _ & Hml)
  end.
  cbn [fst] in Hk. rewrite Hk in Hk'. injection Hk' as <-.
  rewrite Hentries.
  eexists. split; [reflexivity|].
  unfold fillValues. cbn [app nth_error]. rewrite Hml, Hrot.
  repeat split; reflexivity.
Qed.

Lemma C8_dstar_mass_axis_witness :
  exists t,
    init (ext := Reference.externals) (Reference.configuration 0 true false false false)
    = Initialised t
    /\ nMassHypos t = 1%nat
    /\ (signSoftPi Reference.dstarPlus > 0)%Z
    /\ (signSoftPi Reference.dstarMinus <= 0)%Z
    /\ invMassCharmHadForSparse (kinematicsDstar false t Reference.dstarPlus)
       = 2.01 - 1.865
    /\ invMassCharmHadForSparse (kinematicsDstar false t Reference.dstarMinus)
       = 2.01 - 1.865.
Proof.
  eexists. split; [reflexivity|].
  split; [reflexivity|].
  assert (signSoftPi Reference.dstarPlus > 0)%Z as Hplus by (cbn; lia).
  assert (signSoftPi Reference.dstarMinus <= 0)%Z as Hminus by (cbn; lia).
  split; [exact Hplus|]. split; [exact Hminus|].
  match goal with
  | |- context [kinematicsDstar false ?t _] =>
      destruct (C8_dstar_mass_axis_is_mass_difference (ext := Reference.externals)
                  Reference.dstarPlus (t, @nil R) eq_refl) as (Hp & _);
      destruct (C8_dstar_mass_axis_is_mass_difference (ext := Reference.externals)
                  Reference.dstarMinus (t, @nil R) eq_refl) as (_ & Hm & _)
  end.
  split; [exact (proj2 (Hp Hplus))|exact (proj2 (Hm Hminus))].
Defined.

Lemma C9_init_fatal_checks_witness :
  (nProcesses (Reference.configuration 0 true false true false) > 1)%Z
  /\ (exists msg,
         init (ext := Reference.externals) (Reference.configuration 0 true false true false)
         = Fatal msg)
  /\ nProcesses (Reference.configuration 0 true false false false) = 1%Z
  /\ (nSparses (Reference.configuration 0 true false false false) >= 1)%Z
  /\ exists t,
       init (ext := Reference.externals) (Reference.configuration 0 true false false false)
       = Initialised t.
Proof.
  assert (nProcesses (Reference.configuration 0 true false true false) > 1)%Z
    as Htwo by reflexivity.
  assert (nProcesses (Reference.configuration 0 true false false false) = 1%Z)
    as Hone by reflexivity.
  assert (nSparses (Reference.configuration 0 true false false false) >= 1)%Z
    as Hsp by (cbv; discriminate).
  split; [exact Htwo|]. split.
  - destruct (proj1 (C9_init_fatal_checks (ext := Reference.externals)
                       (Reference.configuration 0 true false true false))
                    (or_intror (or_introl Htwo))) as (msg & Hmsg & _).
    exists msg. exact Hmsg.
  - split; [exact Hone|]. split; [exact Hsp|].
    exact (proj2 (C9_init_fatal_checks (ext := Reference.externals)
                    (Reference.configuration 0 true false false false)) Hone Hsp).
Defined.

Lemma C10_rotation_keeps_pz_and_pt_witness :
  exists t,
    init (ext := Reference.externals) (Reference.configuration 2 false false true false)
    = Initialised t
    /\ (1 > 0)%Z
    /\ (PKPi < NMassHypoLcToPKPi)%nat
    /\ (lcSelectionFlag Reference.lcBoth PKPi >= selectionFlagLcToPKPi (config t))%Z
    /\ exists k,
         kinematicsLcToPKPi (ext := Reference.externals) false t Reference.lcBoth PKPi 1
         = Some k
         /\ isRotatedCandidate k = 1%Z
         /\ pzCharmHad k = 0 + 0 + 1.
Proof.
  eexists. split; [reflexivity|].
  assert (1 > 0)%Z as Hrot by lia.
  assert (PKPi < NMassHypoLcToPKPi)%nat as Hi by (unfold PKPi, NMassHypoLcToPKPi; lia).
  split; [exact Hrot|]. split; [exact Hi|].
  match goal with
  | |- (?a >= ?b)%Z /\ _ => assert (a >= b)%Z as Hsel by (cbn; lia)
  end.
  split; [exact Hsel|].
  exact (proj2 (proj2 (C10_rotation_keeps_pz_and_pt (ext := Reference.externals) false _
                         Reference.lcBoth PKPi 1%Z)) Hrot Hi Hsel).
Defined.

Lemma movingProbe_rest_frame_y :
  Y (threeVecDauCM (ext := Reference.externals) Reference.movingProbe) = 1.
Proof.
  unfold threeVecDauCM, Vect, fourVecMother, fourVecDau, Reference.movingProbe.
  cbn [Boost BoostToCM Reference.externals Reference.boost Reference.boostToCM
         Px Py Pz M X Y Z_ pxDau pyDau pzDau massDau pxCharmHad pyCharmHad pzCharmHad
         invMassCharmHad].
  unfold Rdiv. ring.
Qed.

Lemma movingProbe_rest_frame_momentum :
  Mag2 (threeVecDauCM (ext := Reference.externals) Reference.movingProbe) <> 0.
Proof.
  unfold Mag2. rewrite movingProbe_rest_frame_y.
  pose proof (Rle_0_sqr (X (threeVecDauCM (ext := Reference.externals) Reference.movingProbe))) as Hx.
  pose proof (Rle_0_sqr (Z_ (threeVecDauCM (ext := Reference.externals) Reference.movingProbe))) as Hz.
  unfold Rsqr in *. lra.
Qed.

(** * Further properties of the task *)

(** ** What processing does to the state *)

Section Effects.

Context {ext : Externals}.

(** One pass of the loop body: the fills are appended, two numbers are drawn
    when the pass is not skipped. *)
Lemma evaluate_effect (channel : DecayChannel) (withMl : bool)
  (candidate : Cand channel) (bkgRotationId : Z) (iMass : nat) (st : State) :
  let st' := evaluate channel withMl candidate bkgRotationId iMass st in
  match kinematics channel withMl (fst st) candidate iMass bkgRotationId with
  | None => st' = st
  | Some k =>
      entries (registry (fst st'))
      = entries (registry (fst st))
        ++ issuedFills channel withMl (config (fst st)) k (candidatePtOf k)
             (cosThetaStar k (drawnPhi (snd st)) (drawnTheta (snd st)))
      /\ snd st' = afterDraws (snd st)
  end
  /\ histograms (registry (fst st')) = histograms (registry (fst st)).
Proof.
  cbv zeta. unfold evaluate.
  destruct (kinematics channel withMl (fst st) candidate iMass bkgRotationId) as [k|].
  - destruct st as [t g]. cbn [fst snd].
    destruct (angleAndFill_spec channel withMl k t g) as (Hg & He & Hh & _).
    repeat split; assumption.
  - split; reflexivity.
Qed.

(** A sequence of passes keeps what was filled before, and every fill it
    adds is one of the fills of an evaluation. *)
Lemma evaluateAll_entries (channel : DecayChannel) (withMl : bool)
  (candidate : Cand channel) (t : TaskPolarisationCharmHadrons)
  (P : string * list float -> Prop) :
  (forall k candidatePt c,
      Forall P (issuedFills channel withMl (config t) k candidatePt c)) ->
  forall pairs st,
    sameSetup t (fst st) ->
    exists new,
      entries (registry (fst (evaluateAll channel withMl candidate pairs st)))
      = entries (registry (fst st)) ++ new
      /\ Forall P new
      /\ histograms (registry (fst (evaluateAll channel withMl candidate pairs st)))
         = histograms (registry (fst st)).
Proof.
  intros HP. unfold evaluateAll.
  induction pairs as [|p pairs IH]; intros st Hsame; cbn [fold_left].
  - exists []. rewrite app_nil_r. repeat split. constructor.
  - destruct (IH (evaluate channel withMl candidate (snd p) (fst p) st))
      as (new & Hnew & HPnew & Hhist).
    { eapply sameSetup_trans; [exact Hsame|apply evaluate_sameSetup]. }
    destruct (evaluate_effect channel withMl candidate (snd p) (fst p) st) as [Heff Hh].
    rewrite Hnew, Hhist, Hh.
    destruct (kinematics channel withMl (fst st) candidate (fst p) (snd p)) as [k|].
    + destruct Heff as [He _]. rewrite He, <- app_assoc.
      eexists. split; [reflexivity|]. split; [|reflexivity].
      apply Forall_app. split; [|exact HPnew].
      destruct Hsame as (Hc & _). rewrite Hc. apply HP.
    + rewrite Heff. exists new. repeat split; assumption.
Qed.

Lemma hypothesisSelected_spec (withMl : bool) (t : TaskPolarisationCharmHadrons)
  (candidate : CandLcToPKPiWSelFlag) (iMass : nat) (bkgRotationId : Z) :
  if hypothesisSelected t candidate iMass
  then exists k, kinematicsLcToPKPi withMl t candidate iMass bkgRotationId = Some k
  else kinematicsLcToPKPi withMl t candidate iMass bkgRotationId = None.
Proof.
  unfold hypothesisSelected.
  destruct (iMass <? NMassHypoLcToPKPi)%nat eqn:Hi; cbn [andb].
  - apply Nat.ltb_lt in Hi.
    destruct (lcSelectionFlag candidate iMass >=? selectionFlagLcToPKPi (config t))%Z eqn:Hs.
    + destruct (kinematicsLc_selected withMl t candidate iMass bkgRotationId Hi)
        as (k & Hk & _); [lia|]. exists k. exact Hk.
    + apply kinematicsLc_unselected. lia.
  - apply Nat.ltb_ge in Hi. apply kinematicsLc_out_of_range. exact Hi.
Qed.

Lemma selectedCount_eq (t : TaskPolarisationCharmHadrons)
  (candidate : CandLcToPKPiWSelFlag) :
  selectedCount t candidate
  = (b2i (hypothesisSelected t candidate PKPi) + b2i (hypothesisSelected t candidate PiKP))%Z.
Proof. reflexivity. Qed.

Lemma hypothesisSelected_sameSetup (t t' : TaskPolarisationCharmHadrons)
  (candidate : CandLcToPKPiWSelFlag) (iMass : nat) :
  sameSetup t t' ->
  hypothesisSelected t' candidate iMass = hypothesisSelected t candidate iMass.
Proof. intros (Hc & _). unfold hypothesisSelected. rewrite Hc. reflexivity. Qed.

(** One Lc pass adds one fill per enabled histogram and draws twice when its
    hypothesis is selected, and does nothing otherwise. *)
Lemma evaluate_Lc_counts (withMl : bool) (candidate : CandLcToPKPiWSelFlag)
  (t : TaskPolarisationCharmHadrons) (bkgRotationId : Z) (iMass : nat) (st : State) :
  sameSetup t (fst st) ->
  let st' := evaluate LcToPKPi withMl candidate bkgRotationId iMass st in
  entryCount st'
  = (entryCount st
     + b2i (hypothesisSelected t candidate iMass) * nSparses (config t))%Z
  /\ snd st'
     = Nat.iter (Z.to_nat (b2i (hypothesisSelected t candidate iMass))) afterDraws (snd st).
Proof.
  intros Hsame. cbv zeta.
  pose proof (hypothesisSelected_spec withMl (fst st) candidate iMass bkgRotationId) as Hsel.
  rewrite (hypothesisSelected_sameSetup t (fst st) candidate iMass Hsame) in Hsel.
  destruct (evaluate_effect LcToPKPi withMl candidate bkgRotationId iMass st) as [Heff _].
  cbn [kinematics] in Heff.
  destruct (hypothesisSelected t candidate iMass).
  - destruct Hsel as (k & Hk). rewrite Hk in Heff. destruct Heff as [He Hg].
    unfold entryCount. rewrite He, length_app, Nat2Z.inj_add, issuedFills_length by discriminate.
    destruct Hsame as (Hc & _). rewrite Hc. cbn [b2i Z.to_nat Pos.to_nat Pos.iter_op Nat.iter nat_rect].
    split; [lia|exact Hg].
  - rewrite Hsel in Heff. rewrite Heff. cbn [b2i Z.to_nat Nat.iter nat_rect]. split; [lia|reflexivity].
Qed.

End Effects.

Section Counts.

Context {ext : Externals}.

Variable withMl : bool.
Variable candidate : CandLcToPKPiWSelFlag.
Variable t : TaskPolarisationCharmHadrons.

Hypothesis two_hypotheses : nMassHypos t = NMassHypoLcToPKPi.

Lemma selectedCount_range : (0 <= selectedCount t candidate <= 2)%Z.
Proof.
  unfold selectedCount.
  pose proof (b2i_range (isSelLcToPKPi candidate >=? selectionFlagLcToPKPi (config t))%Z).
  pose proof (b2i_range (isSelLcToPiKP candidate >=? selectionFlagLcToPKPi (config t))%Z).
  lia.
Qed.

Lemma run_Lc_counts (bkgRotationId : Z) (st : State) :
  sameSetup t (fst st) ->
  let st' := runPolarisationAnalysis LcToPKPi withMl candidate bkgRotationId st in
  entryCount st'
  = (entryCount st + selectedCount t candidate * nSparses (config t))%Z
  /\ snd st' = Nat.iter (Z.to_nat (selectedCount t candidate)) afterDraws (snd st).
Proof.
  intros Hsame. cbv zeta.
  rewrite runPolarisationAnalysis_two
    by (destruct Hsame as (_ & Hn & _); rewrite Hn; exact two_hypotheses).
  destruct (evaluate_Lc_counts withMl candidate t bkgRotationId PKPi st Hsame) as [Hc0 Hg0].
  assert (sameSetup t (fst (evaluate LcToPKPi withMl candidate bkgRotationId PKPi st))) as Hsame1
      by (eapply sameSetup_trans; [exact Hsame|apply evaluate_sameSetup]).
  destruct (evaluate_Lc_counts withMl candidate t bkgRotationId PiKP _ Hsame1) as [Hc1 Hg1].
  rewrite Hc1, Hc0, Hg1, Hg0, selectedCount_eq.
  pose proof (b2i_range (hypothesisSelected t candidate PKPi)).
  pose proof (b2i_range (hypothesisSelected t candidate PiKP)).
  split; [lia|].
  rewrite <- Nat.iter_add. f_equal. lia.
Qed.

Lemma fold_run_Lc_counts (rots : list Z) (st : State) :
  sameSetup t (fst st) ->
  let st' := fold_left (fun s rot => runPolarisationAnalysis LcToPKPi withMl candidate rot s)
                       rots st in
  entryCount st'
  = (entryCount st
     + Z.of_nat (List.length rots) * selectedCount t candidate * nSparses (config t))%Z
  /\ snd st'
     = Nat.iter (List.length rots * Z.to_nat (selectedCount t candidate)) afterDraws (snd st).
Proof.
  cbv zeta. revert st. induction rots as [|rot rots IH]; intros st Hsame; cbn [fold_left].
  - cbn [List.length Nat.mul Nat.iter nat_rect]. split; [lia|reflexivity].
  - destruct (run_Lc_counts rot st Hsame) as [Hc Hg].
    destruct (IH (runPolarisationAnalysis LcToPKPi withMl candidate rot st)) as [Hc' Hg'].
    { eapply sameSetup_trans; [exact Hsame|apply runPolarisationAnalysis_sameSetup]. }
    rewrite Hc', Hc, Hg', Hg. cbn [List.length]. split; [lia|].
    rewrite <- Nat.iter_add. f_equal. lia.
Qed.

Lemma processLc_counts (st : State) :
  sameSetup t (fst st) ->
  (0 <= nBkgRotations (config t))%Z ->
  entryCount (processLc withMl candidate st)
  = (entryCount st
     + (nBkgRotations (config t) + 1) * selectedCount t candidate * nSparses (config t))%Z
  /\ snd (processLc withMl candidate st)
     = Nat.iter (Z.to_nat ((nBkgRotations (config t) + 1) * selectedCount t candidate))
                afterDraws (snd st).
Proof.
  intros Hsame HN. rewrite processLc_fold.
  destruct Hsame as (Hc & Hrest). rewrite Hc.
  destruct (fold_run_Lc_counts (allRotationIds (nBkgRotations (config t))) st) as [Hn Hg];
    [split; assumption|].
  rewrite Hn, Hg, length_allRotationIds by exact HN.
  split; [reflexivity|]. f_equal.
  pose proof selectedCount_range as Hs.
  pose proof (length_allRotationIds (nBkgRotations (config t)) HN) as Hlen.
  rewrite Z2Nat.inj_mul by lia. rewrite <- Hlen, Nat2Z.id. reflexivity.
Qed.

(** A candidate that passes neither test leaves the state as it is. *)
Lemma fold_run_none_selected (rots : list Z) (st : State) :
  sameSetup t (fst st) ->
  selectedCount t candidate = 0%Z ->
  fold_left (fun s rot => runPolarisationAnalysis LcToPKPi withMl candidate rot s) rots st
  = st.
Proof.
  intros Hsame Hzero.
  assert (hypothesisSelected t candidate PKPi = false
          /\ hypothesisSelected t candidate PiKP = false) as [H0 H1].
  { rewrite selectedCount_eq in Hzero.
    destruct (hypothesisSelected t candidate PKPi), (hypothesisSelected t candidate PiKP);
      cbn in Hzero; try lia; split; reflexivity. }
  induction rots as [|rot rots IH]; cbn [fold_left]; [reflexivity|].
  assert (runPolarisationAnalysis LcToPKPi withMl candidate rot st = st) as ->; [|exact IH].
  rewrite runPolarisationAnalysis_two
    by (destruct Hsame as (_ & Hn & _); rewrite Hn; exact two_hypotheses).
  pose proof (hypothesisSelected_spec withMl t candidate PKPi rot) as Hk0.
  pose proof (hypothesisSelected_spec withMl t candidate PiKP rot) as Hk1.
  rewrite H0 in Hk0. rewrite H1 in Hk1.
  rewrite (evaluate_skip LcToPKPi withMl candidate rot PKPi t st Hsame Hk0).
  apply (evaluate_skip LcToPKPi withMl candidate rot PiKP t st Hsame Hk1).
Qed.

End Counts.

Section ProcessingProperties.

Context {ext : Externals}.

(** X1. Processing a candidate only appends to the fill history: whatever
    process function is called, the fills received before are kept in
    their order, the registered histograms are the same, and the
    configuration, the masses, the angle step and the number of mass
    hypotheses are unchanged. *)
Theorem X1_processing_is_append_only (st : State) :
  (forall candidate,
      exists new,
        entries (registry (fst (processDstar candidate st)))
        = entries (registry (fst st)) ++ new
        /\ histograms (registry (fst (processDstar candidate st)))
           = histograms (registry (fst st))
        /\ sameSetup (fst st) (fst (processDstar candidate st)))
  /\ (forall candidate, processDstarWithMl candidate st = st)
  /\ (forall withMl candidate,
         exists new,
           entries (registry (fst (processLc withMl candidate st)))
           = entries (registry (fst st)) ++ new
           /\ histograms (registry (fst (processLc withMl candidate st)))
              = histograms (registry (fst st))
           /\ sameSetup (fst st) (fst (processLc withMl candidate st))).
Proof.
  split; [|split].
  - intros candidate. unfold processDstar. rewrite run_is_evaluateAll.
    destruct (evaluateAll_entries DstarToDzeroPi false candidate (fst st) (fun _ => True))
      with (pairs := evaluationPairs (nMassHypos (fst st)) [0%Z]) (st := st)
      as (new & Hnew & _ & Hh).
    { intros. apply Forall_forall. intros; exact I. }
    { apply sameSetup_refl. }
    exists new. split; [exact Hnew|]. split; [exact Hh|].
    apply fold_evaluateAll_sameSetup.
  - reflexivity.
  - intros withMl candidate.
    rewrite (processLc_is_evaluateAll withMl (fst st)) by apply sameSetup_refl.
    destruct (evaluateAll_entries LcToPKPi withMl candidate (fst st) (fun _ => True))
      with (pairs := evaluationPairs (nMassHypos (fst st))
                       (allRotationIds (nBkgRotations (config (fst st))))) (st := st)
      as (new & Hnew & _ & Hh).
    { intros. apply Forall_forall. intros; exact I. }
    { apply sameSetup_refl. }
    exists new. split; [exact Hnew|]. split; [exact Hh|].
    apply fold_evaluateAll_sameSetup.
Qed.

(** X2. With two mass hypotheses and 0 <= N < INT_MAX configured
    rotations, a Lc process function adds (N + 1) * s * h fills for a
    candidate, s the number of its mass hypotheses that pass the selection
    test (0, 1 or 2) and h the number of enabled histograms. *)
Theorem X2_lc_fill_count (candidate : CandLcToPKPiWSelFlag) (st : State) :
  nMassHypos (fst st) = NMassHypoLcToPKPi ->
  (0 <= nBkgRotations (config (fst st)) < INT_MAX)%Z ->
  let added :=
    ((nBkgRotations (config (fst st)) + 1) * selectedCount (fst st) candidate
     * nSparses (config (fst st)))%Z in
  entryCount (processLcToPKPi candidate st) = (entryCount st + added)%Z
  /\ entryCount (processLcToPKPiWithMl candidate st) = (entryCount st + added)%Z
  /\ (0 <= selectedCount (fst st) candidate <= 2)%Z.
Proof.
  intros Htwo [HN _] added.
  split; [|split].
  - exact (proj1 (processLc_counts false candidate (fst st) Htwo st (sameSetup_refl _) HN)).
  - exact (proj1 (processLc_counts true candidate (fst st) Htwo st (sameSetup_refl _) HN)).
  - apply selectedCount_range. exact Htwo.
Qed.

(** X3. With two mass hypotheses and 0 <= N < INT_MAX configured
    rotations, a Lc process function leaves the random generator where
    2 * (N + 1) * s draws take it, s the number of selected mass hypotheses
    of the candidate: each evaluation draws the azimuth in [0, 2 pi] and
    then the polar angle in [0, pi], a skipped one draws nothing. *)
Theorem X3_lc_random_draws (withMl : bool) (candidate : CandLcToPKPiWSelFlag)
  (st : State) :
  nMassHypos (fst st) = NMassHypoLcToPKPi ->
  (0 <= nBkgRotations (config (fst st)) < INT_MAX)%Z ->
  snd (processLc withMl candidate st)
  = Nat.iter (Z.to_nat ((nBkgRotations (config (fst st)) + 1)
                        * selectedCount (fst st) candidate))
             (fun gRandom => snd (Uniform (snd (Uniform gRandom 0 TwoPI)) 0 PI))
             (snd st).
Proof.
  intros Htwo [HN _].
  exact (proj2 (processLc_counts withMl candidate (fst st) Htwo st (sameSetup_refl _) HN)).
Qed.

Lemma filter_selectedCount (t : TaskPolarisationCharmHadrons)
  (candidate : CandLcToPKPiWSelFlag) :
  filterSelectLcToPKPiCandidates (config t) candidate = true
  <-> (1 <= selectedCount t candidate)%Z.
Proof.
  unfold filterSelectLcToPKPiCandidates, selectedCount.
  destruct (isSelLcToPKPi candidate >=? selectionFlagLcToPKPi (config t))%Z,
           (isSelLcToPiKP candidate >=? selectionFlagLcToPKPi (config t))%Z;
    cbn; split; intros; try lia; try reflexivity; discriminate.
Qed.

(** X4. The filter of line 97 and the tests of the loop body agree: for a
    Lc candidate that the filter rejects (both selection flags below the
    threshold) a process function changes nothing, neither the registry nor
    the random generator; for one that the filter lets through, every
    rotation index adds at least one fill per enabled histogram. *)
Theorem X4_filter_and_selection_agree (withMl : bool)
  (candidate : CandLcToPKPiWSelFlag) (st : State) :
  nMassHypos (fst st) = NMassHypoLcToPKPi ->
  (filterSelectLcToPKPiCandidates (config (fst st)) candidate = false ->
   processLc withMl candidate st = st)
  /\ (filterSelectLcToPKPiCandidates (config (fst st)) candidate = true ->
      forall bkgRotationId,
        (entryCount st + nSparses (config (fst st))
         <= entryCount (runPolarisationAnalysis LcToPKPi withMl candidate bkgRotationId st))%Z).
Proof.
  intros Htwo.
  pose proof (filter_selectedCount (fst st) candidate) as Hfilter.
  pose proof (selectedCount_range candidate (fst st) Htwo) as Hrange.
  pose proof (nSparses_nonneg (config (fst st))) as Hs.
  split.
  - intros Hrej. rewrite processLc_fold.
    apply (fold_run_none_selected withMl candidate (fst st) Htwo); [apply sameSetup_refl|].
    destruct (Z.eq_dec (selectedCount (fst st) candidate) 0) as [Hz|Hnz]; [exact Hz|].
    assert (filterSelectLcToPKPiCandidates (config (fst st)) candidate = true) as Habs
        by (apply Hfilter; lia).
    congruence.
  - intros Hacc rot.
    destruct (run_Lc_counts withMl candidate (fst st) Htwo rot st (sameSetup_refl _))
      as [Hc _].
    rewrite Hc. apply Hfilter in Hacc. nia.
Qed.

End ProcessingProperties.

(** ** The registered histograms *)

Section Histograms.

Context {ext : Externals}.

(** The registry that [init] builds in a mode. *)
Lemma registry_after_init (cfg : Configuration) (t : TaskPolarisationCharmHadrons) :
  init cfg = Initialised t ->
  registry t
  = addSparses cfg (doprocessDstarWithMl cfg || doprocessLcToPKPiWithMl cfg)
      (doprocessLcToPKPi cfg || doprocessLcToPKPiWithMl cfg) emptyRegistry.
Proof.
  intros Hinit.
  destruct (init_completes cfg t Hinit) as (Hone & _).
  rewrite nProcesses_eq in Hone.
  unfold init in Hinit.
  destruct (nProcesses cfg >? 1)%Z; [discriminate|].
  destruct (nProcesses cfg =? 0)%Z; [discriminate|].
  destruct (nSparses cfg =? 0)%Z; [discriminate|].
  injection Hinit as <-. cbn [registry].
  destruct (doprocessDstar cfg), (doprocessDstarWithMl cfg), (doprocessLcToPKPi cfg),
           (doprocessLcToPKPiWithMl cfg); cbn in Hone |- *; try lia; reflexivity.
Qed.

Lemma addSparses_shape (cfg : Configuration) (withMl withRotation : bool) :
  let hs := histograms (addSparses cfg withMl withRotation emptyRegistry) in
  Z.of_nat (List.length hs) = nSparses cfg
  /\ NoDup (map histogramName hs)
  /\ Forall (fun h => List.length (histogramAxes h) = axisCount withMl withRotation) hs
  /\ entries (addSparses cfg withMl withRotation emptyRegistry) = [].
Proof.
  cbv zeta. rewrite nSparses_eq.
  unfold addSparses, addSparse, registry_add, emptyRegistry, axisCount.
  destruct (activateTHnSparseCosThStarHelicity cfg),
           (activateTHnSparseCosThStarProduction cfg),
           (activateTHnSparseCosThStarBeam cfg),
           (activateTHnSparseCosThStarRandom cfg);
    cbn [histograms entries app map List.length histogramName histogramAxes fst snd b2i];
    (split; [reflexivity|]);
    (split; [repeat constructor; cbn [In]; intuition discriminate|]);
    (split; [|reflexivity]);
    destruct withMl, withRotation; repeat constructor.
Qed.

Lemma issuedFills_match (channel : DecayChannel) (withMl : bool)
  (cfg : Configuration) (k : Kinematics) (candidatePt : R) (c : CosThetaStar) :
  Forall (fillMatchesHistogram
            (addSparses cfg withMl
               (match channel with LcToPKPi => true | _ => false end) emptyRegistry))
         (issuedFills channel withMl cfg k candidatePt c).
Proof.
  unfold issuedFills, fillMatchesHistogram, fillValues, addSparses, addSparse,
    registry_add, emptyRegistry.
  destruct channel; [| |constructor];
    destruct (activateTHnSparseCosThStarHelicity cfg),
             (activateTHnSparseCosThStarProduction cfg),
             (activateTHnSparseCosThStarBeam cfg),
             (activateTHnSparseCosThStarRandom cfg);
    cbn [histograms app fst snd];
    repeat (apply Forall_cons || apply Forall_nil);
    (eexists; eexists; split; [cbn [In]; eauto 6|]; destruct withMl; reflexivity).
Qed.

End Histograms.

Section HistogramProperties.

Context {ext : Externals}.

Lemma addSparses_names (cfg : Configuration) (withMl withRotation : bool) :
  let names := map histogramName
                   (histograms (addSparses cfg withMl withRotation emptyRegistry)) in
  (In hSparseCharmPolarisationHelicity names
   <-> activateTHnSparseCosThStarHelicity cfg = true)
  /\ (In hSparseCharmPolarisationProduction names
      <-> activateTHnSparseCosThStarProduction cfg = true)
  /\ (In hSparseCharmPolarisationBeam names
      <-> activateTHnSparseCosThStarBeam cfg = true)
  /\ (In hSparseCharmPolarisationRandom names
      <-> activateTHnSparseCosThStarRandom cfg = true).
Proof.
  cbv zeta. unfold addSparses, addSparse, registry_add, emptyRegistry.
  destruct (activateTHnSparseCosThStarHelicity cfg),
           (activateTHnSparseCosThStarProduction cfg),
           (activateTHnSparseCosThStarBeam cfg),
           (activateTHnSparseCosThStarRandom cfg);
    cbn [histograms app map histogramName fst In];
    repeat split; intros; try reflexivity; try discriminate; auto 6;
    intuition discriminate.
Qed.

(** X5. When [init] completes, the registry holds one histogram per enabled
    switch and no fill: the number of histograms is the number of enabled
    switches, their names are pairwise different, a name is registered
    exactly when its switch is on, and every histogram has 5 axes, plus 2
    in a mode with ML, plus 1 in a Lc->pKpi mode. *)
Theorem X5_init_registers_one_histogram_per_switch (cfg : Configuration)
  (t : TaskPolarisationCharmHadrons) :
  init cfg = Initialised t ->
  let withMl := doprocessDstarWithMl cfg || doprocessLcToPKPiWithMl cfg in
  let withRotation := doprocessLcToPKPi cfg || doprocessLcToPKPiWithMl cfg in
  let names := map histogramName (histograms (registry t)) in
  Z.of_nat (List.length (histograms (registry t))) = nSparses cfg
  /\ NoDup names
  /\ Forall (fun h => List.length (histogramAxes h) = axisCount withMl withRotation)
            (histograms (registry t))
  /\ entries (registry t) = []
  /\ (In hSparseCharmPolarisationHelicity names
      <-> activateTHnSparseCosThStarHelicity cfg = true)
  /\ (In hSparseCharmPolarisationProduction names
      <-> activateTHnSparseCosThStarProduction cfg = true)
  /\ (In hSparseCharmPolarisationBeam names
      <-> activateTHnSparseCosThStarBeam cfg = true)
  /\ (In hSparseCharmPolarisationRandom names
      <-> activateTHnSparseCosThStarRandom cfg = true).
Proof.
  intros Hinit. cbv zeta. rewrite (registry_after_init cfg t Hinit).
  destruct (addSparses_shape cfg (doprocessDstarWithMl cfg || doprocessLcToPKPiWithMl cfg)
              (doprocessLcToPKPi cfg || doprocessLcToPKPiWithMl cfg))
    as (Hlen & Hnd & Hax & Hent).
  split; [exact Hlen|]. split; [exact Hnd|]. split; [exact Hax|]. split; [exact Hent|].
  apply addSparses_names.
Qed.

(** X6. Every fill goes to a histogram that [init] registered, with as many
    values as that histogram has axes: after [init] in the D* mode, in the
    Lc->pKpi mode or in the Lc->pKpi mode with ML, each fill that the
    process function of the mode adds names a registered histogram and
    carries one value per axis of it. *)
Theorem X6_fills_match_registered_histograms (cfg : Configuration)
  (t0 : TaskPolarisationCharmHadrons) (st : State) :
  init cfg = Initialised t0 ->
  sameSetup t0 (fst st) ->
  (doprocessDstar cfg = true ->
   forall candidate, exists new,
     entries (registry (fst (processDstar candidate st)))
     = entries (registry (fst st)) ++ new
     /\ Forall (fillMatchesHistogram (registry t0)) new)
  /\ (doprocessLcToPKPi cfg = true ->
      forall candidate, exists new,
        entries (registry (fst (processLcToPKPi candidate st)))
        = entries (registry (fst st)) ++ new
        /\ Forall (fillMatchesHistogram (registry t0)) new)
  /\ (doprocessLcToPKPiWithMl cfg = true ->
      forall candidate, exists new,
        entries (registry (fst (processLcToPKPiWithMl candidate st)))
        = entries (registry (fst st)) ++ new
        /\ Forall (fillMatchesHistogram (registry t0)) new).
Proof.
  intros Hinit Hsame.
  pose proof (registry_after_init cfg t0 Hinit) as Hreg.
  destruct (init_completes cfg t0 Hinit) as (Hone & _ & Hcfg & _).
  rewrite nProcesses_eq in Hone.
  split; [|split].
  - intros Hd candidate. rewrite Hd in Hone.
    assert (doprocessDstarWithMl cfg = false /\ doprocessLcToPKPi cfg = false
            /\ doprocessLcToPKPiWithMl cfg = false) as (H1 & H2 & H3).
    { destruct (doprocessDstarWithMl cfg), (doprocessLcToPKPi cfg),
               (doprocessLcToPKPiWithMl cfg); cbn in Hone; try lia; repeat split. }
    rewrite H1, H2, H3 in Hreg. cbn [orb] in Hreg.
    unfold processDstar. rewrite run_is_evaluateAll.
    destruct (evaluateAll_entries DstarToDzeroPi false candidate t0
                (fillMatchesHistogram (registry t0)))
      with (pairs := evaluationPairs (nMassHypos (fst st)) [0%Z]) (st := st)
      as (new & Hnew & HP & _); [|exact Hsame|].
    { intros k pt c. rewrite Hreg, Hcfg.
      apply (issuedFills_match DstarToDzeroPi false cfg). }
    exists new. split; assumption.
  - intros Hl candidate. rewrite Hl in Hone.
    assert (doprocessDstarWithMl cfg = false /\ doprocessLcToPKPiWithMl cfg = false)
      as (H1 & H3).
    { destruct (doprocessDstar cfg), (doprocessDstarWithMl cfg),
               (doprocessLcToPKPiWithMl cfg); cbn in Hone; try lia; repeat split. }
    rewrite H1, Hl, H3 in Hreg. cbn [orb] in Hreg.
    change (processLcToPKPi candidate st) with (processLc false candidate st).
    rewrite (processLc_is_evaluateAll false t0) by exact Hsame.
    destruct (evaluateAll_entries LcToPKPi false candidate t0
                (fillMatchesHistogram (registry t0)))
      with (pairs := evaluationPairs (nMassHypos t0)
                       (allRotationIds (nBkgRotations (config t0)))) (st := st)
      as (new & Hnew & HP & _); [|exact Hsame|].
    { intros k pt c. rewrite Hreg, Hcfg.
      apply (issuedFills_match LcToPKPi false cfg). }
    exists new. split; assumption.
  - intros Hl candidate. rewrite Hl in Hone.
    assert (doprocessDstarWithMl cfg = false) as H1.
    { destruct (doprocessDstar cfg), (doprocessDstarWithMl cfg),
               (doprocessLcToPKPi cfg); cbn in Hone; try lia; repeat split. }
    rewrite H1, Hl, !orb_true_r in Hreg.
    change (processLcToPKPiWithMl candidate st) with (processLc true candidate st).
    rewrite (processLc_is_evaluateAll true t0) by exact Hsame.
    destruct (evaluateAll_entries LcToPKPi true candidate t0
                (fillMatchesHistogram (registry t0)))
      with (pairs := evaluationPairs (nMassHypos t0)
                       (allRotationIds (nBkgRotations (config t0)))) (st := st)
      as (new & Hnew & HP & _); [|exact Hsame|].
    { intros k pt c. rewrite Hreg, Hcfg.
      apply (issuedFills_match LcToPKPi true cfg). }
    exists new. split; assumption.
Qed.

End HistogramProperties.

(** ** Rotated replicas *)

Section Replicas.

Context {ext : Externals}.

Lemma kinematicsLc_some_selected (withMl : bool) (t : TaskPolarisationCharmHadrons)
  (candidate : CandLcToPKPiWSelFlag) (iMass : nat) (bkgRotationId : Z) (k : Kinematics) :
  kinematicsLcToPKPi withMl t candidate iMass bkgRotationId = Some k ->
  (iMass < NMassHypoLcToPKPi)%nat
  /\ (lcSelectionFlag candidate iMass >= selectionFlagLcToPKPi (config t))%Z.
Proof.
  intros Hk.
  pose proof (hypothesisSelected_spec withMl t candidate iMass bkgRotationId) as Hsel.
  unfold hypothesisSelected in Hsel.
  destruct (iMass <? NMassHypoLcToPKPi)%nat eqn:Hi; cbn [andb] in Hsel; [|congruence].
  destruct (lcSelectionFlag candidate iMass >=? selectionFlagLcToPKPi (config t))%Z eqn:Hs;
    [|congruence].
  apply Nat.ltb_lt in Hi. split; [exact Hi|lia].
Qed.

(** X7. Whether a mass hypothesis is skipped does not depend on the
    rotation index, and a rotated replica has the probe momentum, the probe
    mass and the ML scores of the unrotated candidate: only the second
    prong is rotated, and each rotated candidate inherits the scores. *)
Theorem X7_replica_inherits_probe_and_scores (withMl : bool)
  (t : TaskPolarisationCharmHadrons) (candidate : CandLcToPKPiWSelFlag)
  (iMass : nat) (bkgRotationId : Z) :
  match kinematicsLcToPKPi withMl t candidate iMass bkgRotationId,
        kinematicsLcToPKPi withMl t candidate iMass 0 with
  | Some k, Some k0 =>
      pxDau k = pxDau k0 /\ pyDau k = pyDau k0 /\ pzDau k = pzDau k0
      /\ massDau k = massDau k0
      /\ outputMl k = outputMl k0
  | None, None => True
  | _, _ => False
  end.
Proof.
  pose proof (hypothesisSelected_spec withMl t candidate iMass bkgRotationId) as Hrot.
  pose proof (hypothesisSelected_spec withMl t candidate iMass 0) as Hzero.
  destruct (hypothesisSelected t candidate iMass).
  - destruct Hrot as (k & Hk). destruct Hzero as (k0 & Hk0). rewrite Hk, Hk0.
    destruct (kinematicsLc_some_selected withMl t candidate iMass _ k Hk) as [Hi Hsel].
    destruct (kinematicsLc_selected withMl t candidate iMass bkgRotationId Hi Hsel)
      as (k' & Hk' & Hp & Hm & _ & _ & _ & _ & _ & _ & Hml).
    destruct (kinematicsLc_selected withMl t candidate iMass 0 Hi Hsel)
      as (k0' & Hk0' & Hp0 & Hm0 & _ & _ & _ & _ & _ & _ & Hml0).
    rewrite Hk in Hk'. injection Hk' as <-.
    rewrite Hk0 in Hk0'. injection Hk0' as <-.
    rewrite <- Hp0 in Hp. injection Hp as Hx Hy Hz.
    repeat split; congruence.
  - rewrite Hrot, Hzero. exact I.
Qed.

(** X8. For a rotation index that is not negative the rotation flag, the
    parent momentum and the invariant mass go together: at index 0 all are
    those of the candidate, above 0 the flag is 1, the momentum is the sum
    of the prongs with the second one rotated and the mass is the three-body
    mass of these prongs.  For a negative index, which no process function
    passes, the two tests of the code differ: the flag is 0 and the
    momentum is the candidate's, but the mass is the three-body mass of
    the rotated prongs. *)
Theorem X8_rotation_flag_momentum_and_mass (withMl : bool)
  (t : TaskPolarisationCharmHadrons) (candidate : CandLcToPKPiWSelFlag)
  (iMass : nat) (bkgRotationId : Z) (k : Kinematics) :
  kinematicsLcToPKPi withMl t candidate iMass bkgRotationId = Some k ->
  let rotated := threeVecLcRotatedProng1 t candidate bkgRotationId in
  (bkgRotationId = 0%Z ->
   isRotatedCandidate k = 0%Z
   /\ (pxCharmHad k, pyCharmHad k, pzCharmHad k)
      = (px candidate, py candidate, pz candidate)
   /\ invMassCharmHad k = unrotatedInvMass candidate iMass)
  /\ ((bkgRotationId > 0)%Z ->
      isRotatedCandidate k = 1%Z
      /\ (pxCharmHad k, pyCharmHad k, pzCharmHad k)
         = (pxProng0 candidate + at0 rotated + pxProng2 candidate,
            pyProng0 candidate + at1 rotated + pyProng2 candidate,
            pzProng0 candidate + at2 rotated + pzProng2 candidate)
      /\ invMassCharmHad k = rotatedInvMass t candidate iMass bkgRotationId)
  /\ ((bkgRotationId < 0)%Z ->
      isRotatedCandidate k = 0%Z
      /\ (pxCharmHad k, pyCharmHad k, pzCharmHad k)
         = (px candidate, py candidate, pz candidate)
      /\ invMassCharmHad k = rotatedInvMass t candidate iMass bkgRotationId).
Proof.
  intros Hk rotated.
  destruct (kinematicsLc_some_selected withMl t candidate iMass _ k Hk) as [Hi Hsel].
  destruct (kinematicsLc_selected withMl t candidate iMass bkgRotationId Hi Hsel)
    as (k' & Hk' & _ & _ & Hflag & Hpx & Hpy & Hpz & Hm & _).
  rewrite Hk in Hk'. injection Hk' as <-. fold rotated in Hpx, Hpy, Hpz.
  split; [|split].
  - intros ->. cbn [Z.gtb Z.compare Z.eqb] in *.
    rewrite Hflag, Hpx, Hpy, Hpz, Hm. repeat split.
  - intros Hpos.
    assert ((bkgRotationId >? 0)%Z = true) as Hgt by lia.
    assert ((bkgRotationId =? 0)%Z = false) as Hne by lia.
    rewrite Hgt in Hflag, Hpx, Hpy, Hpz. rewrite Hne in Hm.
    rewrite Hflag, Hpx, Hpy, Hpz, Hm. repeat split.
  - intros Hneg.
    assert ((bkgRotationId >? 0)%Z = false) as Hgt by lia.
    assert ((bkgRotationId =? 0)%Z = false) as Hne by lia.
    rewrite Hgt in Hflag, Hpx, Hpy, Hpz. rewrite Hne in Hm.
    rewrite Hflag, Hpx, Hpy, Hpz, Hm. repeat split.
Qed.

Lemma cos_below_one (x : R) : 0 < x < 2 * PI -> cos x < 1.
Proof.
  intros [Hlo Hhi]. pose proof PI_RGT_0 as Hpi.
  destruct (Rle_lt_dec x PI) as [Hle|Hgt].
  - rewrite <- cos_0. apply cos_decreasing_1; lra.
  - rewrite <- cos_2PI. apply cos_increasing_1; lra.
Qed.

(** A rotation in the plane by an angle whose cosine is below 1 fixes the
    null vector only. *)
Lemma plane_rotation_fixed_point (x y a : R) :
  cos a < 1 ->
  x * cos a - y * sin a = x -> x * sin a + y * cos a = y -> x = 0 /\ y = 0.
Proof.
  intros Hc H1 H2.
  assert ((x * x + y * y) * (1 - cos a) = 0) as Hsum.
  { replace ((x * x + y * y) * (1 - cos a))
      with (x * (x - (x * cos a - y * sin a)) + y * (y - (x * sin a + y * cos a)))
      by ring.
    rewrite H1, H2. ring. }
  assert (x * x + y * y = 0) as Hzero.
  { apply Rmult_integral in Hsum. destruct Hsum as [Hs|Hs]; [exact Hs|lra]. }
  pose proof (Rle_0_sqr x) as Hx. pose proof (Rle_0_sqr y) as Hy. unfold Rsqr in *.
  split; apply Rsqr_0_uniq; unfold Rsqr; lra.
Qed.

(** X9. After [init] with 0 <= N < INT_MAX configured rotations, every
    rotation index 1..N really rotates: the rotated second prong equals
    the original second prong only when that prong has no transverse
    momentum. *)
Theorem X9_rotated_replicas_differ (cfg : Configuration)
  (t : TaskPolarisationCharmHadrons) (candidate : CandLcToPKPiWSelFlag) (k : Z) :
  init cfg = Initialised t ->
  (0 <= nBkgRotations cfg < INT_MAX)%Z ->
  (1 <= k <= nBkgRotations cfg)%Z ->
  0 < bkgRotAngle t k < 2 * PI
  /\ (threeVecLcRotatedProng1 t candidate k
      = (pxProng1 candidate, pyProng1 candidate, pzProng1 candidate)
      <-> pxProng1 candidate = 0 /\ pyProng1 candidate = 0).
Proof.
  intros Hinit HN Hk.
  pose proof (step_after_init cfg t Hinit HN) as Hstep.
  pose proof PI_RGT_0 as Hpi.
  assert (1 <= IZR k) as Hk1 by (apply IZR_le; lia).
  assert (IZR k <= IZR (nBkgRotations cfg)) as HkN by (apply IZR_le; lia).
  assert (0 < bkgRotAngle t k < 2 * PI) as Hangle.
  { unfold bkgRotAngle. rewrite Hstep.
    assert (0 < / (IZR (nBkgRotations cfg) + 1)) as Hinv
        by (apply Rinv_0_lt_compat; lra).
    split.
    - unfold Rdiv. apply Rmult_lt_0_compat; [|lra].
      apply Rmult_lt_0_compat; [lra|exact Hinv].
    - apply Rmult_lt_reg_r with (IZR (nBkgRotations cfg) + 1); [lra|].
      replace (2 * PI / (IZR (nBkgRotations cfg) + 1) * IZR k
               * (IZR (nBkgRotations cfg) + 1))
        with (2 * PI * IZR k) by (field; lra).
      nra. }
  split; [exact Hangle|].
  unfold threeVecLcRotatedProng1. split.
  - intros Heq. injection Heq as H1 H2.
    apply (plane_rotation_fixed_point _ _ (bkgRotAngle t k)); try assumption.
    apply cos_below_one. exact Hangle.
  - intros [Hx Hy]. rewrite Hx, Hy. repeat f_equal; ring.
Qed.

End Replicas.

(** ** The reference axes *)

Section Axes.

Context {ext : Externals}.

Lemma fdiv_Finite_inv (a d r : R) :
  fdiv (Finite a) d = Finite r -> d <> 0 /\ r = a / d.
Proof.
  unfold fdiv. destruct (Req_dec_T d 0) as [Hd|Hd]; [discriminate|].
  intros [= <-]. split; [exact Hd|reflexivity].
Qed.

Lemma isFinite_fdiv (a d : R) : isFinite (fdiv (Finite a) d) = true <-> d <> 0.
Proof.
  unfold fdiv. destruct (Req_dec_T d 0) as [Hd|Hd]; cbn [isFinite].
  - split; [discriminate|contradiction].
  - split; [intros _; exact Hd|reflexivity].
Qed.

Lemma normalVec_orthogonal (k : Kinematics) :
  Dot (normalVec k) (helicityVec k) = 0 /\ Dot (normalVec k) beamVec = 0.
Proof.
  unfold Dot, normalVec, helicityVec, beamVec, Vect, fourVecMother.
  cbn [X Y Z_ Px Py Pz]. split; ring.
Qed.

(** The component of a momentum along the parent momentum and the one along
    the production normal do not exceed the momentum. *)
Lemma Bessel_helicity_normal (k : Kinematics) (p : XYZVector) :
  Dot (helicityVec k) p * Dot (helicityVec k) p * Mag2 (normalVec k)
  + Dot (normalVec k) p * Dot (normalVec k) p * Mag2 (helicityVec k)
  <= Mag2 (helicityVec k) * Mag2 (normalVec k) * Mag2 p.
Proof.
  destruct p as [x y z].
  unfold Dot, Mag2, normalVec, helicityVec, Vect, fourVecMother. cbn [X Y Z_ Px Py Pz].
  set (a1 := pxCharmHad k). set (a2 := pyCharmHad k). set (a3 := pzCharmHad k).
  pose proof (Rle_0_sqr (a1 * a3 * x + a2 * a3 * y - (a1 * a1 + a2 * a2) * z)) as Hsq.
  unfold Rsqr in Hsq.
  apply Rminus_le. apply Ropp_le_cancel. rewrite Ropp_0.
  match goal with
  | |- 0 <= ?e =>
      replace e with ((a1 * a3 * x + a2 * a3 * y - (a1 * a1 + a2 * a2) * z)
                      * (a1 * a3 * x + a2 * a3 * y - (a1 * a1 + a2 * a2) * z)) by ring
  end.
  exact Hsq.
Qed.

(** X10. The production-normal axis (py, -px, 0) is orthogonal to the
    helicity axis (the parent momentum) and to the beam axis, and so the
    helicity and production cosines of one evaluation, when both are
    finite, have squares that sum to 1 at most. *)
Theorem X10_production_axis_is_orthogonal (k : Kinematics)
  (phiRandom thetaRandom : R) :
  Dot (normalVec k) (helicityVec k) = 0
  /\ Dot (normalVec k) beamVec = 0
  /\ forall h p,
       cosThetaStarHelicity (cosThetaStar k phiRandom thetaRandom) = Finite h ->
       cosThetaStarProduction (cosThetaStar k phiRandom thetaRandom) = Finite p ->
       h * h + p * p <= 1.
Proof.
  destruct (normalVec_orthogonal k) as [Hnh Hnb].
  split; [exact Hnh|]. split; [exact Hnb|].
  intros h p Hh Hp.
  destruct (cosThetaStar_spec k phiRandom thetaRandom) as (Hhs & Hps & _).
  rewrite Hhs in Hh. rewrite Hps in Hp. unfold cosineToAxis in Hh, Hp.
  apply fdiv_Finite_inv in Hh. apply fdiv_Finite_inv in Hp.
  destruct Hh as [Hdh ->]. destruct Hp as [Hdp ->].
  set (A := helicityVec k) in *. set (N := normalVec k) in *.
  set (q := threeVecDauCM k) in *.
  assert (sqrt (Mag2 A) <> 0 /\ sqrt (Mag2 q) <> 0) as [HsA Hsq].
  { split; intros H0; apply Hdh; rewrite H0; ring. }
  assert (sqrt (Mag2 N) <> 0) as HsN.
  { intros H0; apply Hdp; rewrite H0; ring. }
  pose proof (sqrt_sqrt _ (Mag2_nonneg A)) as HA.
  pose proof (sqrt_sqrt _ (Mag2_nonneg N)) as HN.
  pose proof (sqrt_sqrt _ (Mag2_nonneg q)) as Hq.
  pose proof (sqrt_pos (Mag2 A)) as HpA. pose proof (sqrt_pos (Mag2 N)) as HpN.
  pose proof (sqrt_pos (Mag2 q)) as Hpq.
  assert (0 < Mag2 A * Mag2 N * Mag2 q) as Hden.
  { rewrite <- HA, <- HN, <- Hq.
    repeat apply Rmult_lt_0_compat; lra. }
  replace (Dot A q / (sqrt (Mag2 A) * sqrt (Mag2 q))
           * (Dot A q / (sqrt (Mag2 A) * sqrt (Mag2 q)))
           + Dot N q / (sqrt (Mag2 N) * sqrt (Mag2 q))
             * (Dot N q / (sqrt (Mag2 N) * sqrt (Mag2 q))))
    with ((Dot A q * Dot A q * (sqrt (Mag2 N) * sqrt (Mag2 N))
           + Dot N q * Dot N q * (sqrt (Mag2 A) * sqrt (Mag2 A)))
          / ((sqrt (Mag2 A) * sqrt (Mag2 A)) * (sqrt (Mag2 N) * sqrt (Mag2 N))
             * (sqrt (Mag2 q) * sqrt (Mag2 q))))
    by (field; repeat split; assumption).
  rewrite HA, HN, Hq.
  apply Rmult_le_reg_r with (Mag2 A * Mag2 N * Mag2 q); [exact Hden|].
  unfold Rdiv. rewrite Rmult_assoc, Rinv_l, Rmult_1_r, Rmult_1_l by lra.
  apply Bessel_helicity_normal.
Qed.

Lemma Mag2_zero_iff (a : XYZVector) : Mag2 a = 0 <-> X a = 0 /\ Y a = 0 /\ Z_ a = 0.
Proof.
  unfold Mag2. split.
  - intros H0.
    pose proof (Rle_0_sqr (X a)) as Hx. pose proof (Rle_0_sqr (Y a)) as Hy.
    pose proof (Rle_0_sqr (Z_ a)) as Hz. unfold Rsqr in *.
    repeat split; apply Rsqr_0_uniq; unfold Rsqr; lra.
  - intros (-> & -> & ->). ring.
Qed.

Lemma product_nonzero (x y : R) : x * y <> 0 <-> x <> 0 /\ y <> 0.
Proof.
  split.
  - intros H. split; intros H0; apply H; rewrite H0; ring.
  - intros [Hx Hy]. apply Rmult_integral_contrapositive. split; assumption.
Qed.

Lemma sqrt_Mag2_nonzero (a : XYZVector) : sqrt (Mag2 a) <> 0 <-> Mag2 a <> 0.
Proof. rewrite sqrt_Mag2_zero. reflexivity. Qed.

(** X11. Which cosines of an evaluation are finite: the beam and the random
    one exactly when the rest-frame probe momentum is not null; the helicity
    one when, besides, the parent momentum is not null; the production one
    when, besides, the parent has transverse momentum, the length of the
    production-normal axis being the transverse momentum [candidatePt] that
    is filled.  A parent along the beam line thus gives a non-finite
    production cosine. *)
Theorem X11_which_cosines_are_finite (k : Kinematics) (phiRandom thetaRandom : R) :
  let c := cosThetaStar k phiRandom thetaRandom in
  let candidatePt :=
    sqrt (pxCharmHad k * pxCharmHad k + pyCharmHad k * pyCharmHad k) in
  (isFinite (cosThetaStarBeam c) = true <-> Mag2 (threeVecDauCM k) <> 0)
  /\ (isFinite (cosThetaStarRandom c) = true <-> Mag2 (threeVecDauCM k) <> 0)
  /\ (isFinite (cosThetaStarHelicity c) = true
      <-> Mag2 (threeVecDauCM k) <> 0
          /\ ~ (pxCharmHad k = 0 /\ pyCharmHad k = 0 /\ pzCharmHad k = 0))
  /\ (isFinite (cosThetaStarProduction c) = true
      <-> Mag2 (threeVecDauCM k) <> 0 /\ candidatePt <> 0)
  /\ sqrt (Mag2 (normalVec k)) = candidatePt
  /\ (candidatePt <> 0 <-> ~ (pxCharmHad k = 0 /\ pyCharmHad k = 0)).
Proof.
  cbv zeta.
  destruct (cosThetaStar_spec k phiRandom thetaRandom) as (Hh & Hp & Hb & Hr).
  rewrite Hh, Hp, Hb, Hr. unfold cosineToAxis, cosineToUnitAxis.
  rewrite !isFinite_fdiv, !product_nonzero, !sqrt_Mag2_nonzero.
  assert (Mag2 (normalVec k)
          = pxCharmHad k * pxCharmHad k + pyCharmHad k * pyCharmHad k) as Hn
      by (unfold Mag2, normalVec; cbn [X Y Z_]; ring).
  assert (sqrt (pxCharmHad k * pxCharmHad k + pyCharmHad k * pyCharmHad k) <> 0
          <-> ~ (pxCharmHad k = 0 /\ pyCharmHad k = 0)) as Hpt.
  { rewrite <- Hn, sqrt_Mag2_nonzero, Mag2_zero_iff.
    unfold normalVec. cbn [X Y Z_]. split.
    - intros H [Hx Hy]. apply H. rewrite Hx, Hy. repeat split; lra.
    - intros H (Hy & Hx & _). apply H. split; lra. }
  split; [reflexivity|]. split; [reflexivity|]. split; [|split; [|split]].
  - rewrite (Mag2_zero_iff (helicityVec k)).
    unfold helicityVec, Vect, fourVecMother. cbn [X Y Z_ Px Py Pz]. tauto.
  - rewrite <- Hn, sqrt_Mag2_nonzero. tauto.
  - rewrite Hn. reflexivity.
  - exact Hpt.
Qed.

End Axes.

(** ** The messages of [init] *)

Section InitMessages.

Context {ext : Externals}.

(** X12. The fatal error of [init] tells what is wrong, the process
    switches being checked first: more than one switch on gives "Only one
    process function should be enabled ...", none gives "No process
    function enabled", also when no histogram is enabled either; "No output
    THnSparses enabled" is the outcome exactly when one process switch is on
    and the four histogram switches are off. *)
Theorem X12_init_reports_the_first_fault (cfg : Configuration) :
  (init cfg
   = Fatal "Only one process function should be enabled at a time, please check your configuration"
   <-> (nProcesses cfg > 1)%Z)
  /\ (init cfg = Fatal "No process function enabled" <-> nProcesses cfg = 0%Z)
  /\ (init cfg = Fatal "No output THnSparses enabled"
      <-> nProcesses cfg = 1%Z
          /\ activateTHnSparseCosThStarHelicity cfg = false
          /\ activateTHnSparseCosThStarProduction cfg = false
          /\ activateTHnSparseCosThStarBeam cfg = false
          /\ activateTHnSparseCosThStarRandom cfg = false).
Proof.
  pose proof (nProcesses_nonneg cfg) as Hn.
  rewrite <- nSparses_zero. unfold init.
  destruct (nProcesses cfg >? 1)%Z eqn:H1;
    [|destruct (nProcesses cfg =? 0)%Z eqn:H0;
      [|destruct (nSparses cfg =? 0)%Z eqn:Hs]].
  - repeat split; intros; try reflexivity; try lia; try discriminate.
  - repeat split; intros; try reflexivity; try lia; try discriminate.
  - repeat split; intros; try reflexivity; try lia; try discriminate.
  - repeat split; intros; try lia; try discriminate.
Qed.

End InitMessages.

(** ** ML scores on the fills, mirrored rotations *)

Section Scores.

Context {ext : Externals}.

Lemma issuedFills_ml (channel : DecayChannel) (cfg : Configuration) (k : Kinematics)
  (candidatePt : R) (c : CosThetaStar) :
  Forall (fun e => nth_error (snd e) 5 = Some (Finite (at0 (outputMl k)))
                   /\ nth_error (snd e) 6 = Some (Finite (at2 (outputMl k)))
                   /\ List.length (snd e)
                      = axisCount true (match channel with LcToPKPi => true | _ => false end))
         (issuedFills channel true cfg k candidatePt c).
Proof.
  unfold issuedFills, fillValues, axisCount.
  destruct channel;
    destruct (activateTHnSparseCosThStarHelicity cfg),
             (activateTHnSparseCosThStarProduction cfg),
             (activateTHnSparseCosThStarBeam cfg),
             (activateTHnSparseCosThStarRandom cfg);
    cbn [app]; repeat constructor.
Qed.

(** X13. In the D* branch with ML, which no process function calls yet, the
    scores are not read from the candidate: every fill of an evaluation has
    seven values, the two ML ones being the placeholder -1. *)
Theorem X13_dstar_ml_scores_are_placeholders (candidate : CandDstarWSelFlag)
  (bkgRotationId : Z) (iMass : nat) (st : State) :
  exists new,
    entries (registry (fst (evaluate DstarToDzeroPi true candidate bkgRotationId iMass st)))
    = entries (registry (fst st)) ++ new
    /\ Z.of_nat (List.length new) = nSparses (config (fst st))
    /\ Forall (fun e => nth_error (snd e) 5 = Some (Finite (-1))
                        /\ nth_error (snd e) 6 = Some (Finite (-1))
                        /\ List.length (snd e) = 7%nat)
              new.
Proof.
  destruct (evaluate_effect DstarToDzeroPi true candidate bkgRotationId iMass st)
    as [Heff _].
  cbn [kinematics] in Heff. destruct Heff as [He _].
  eexists. split; [exact He|]. split.
  - apply issuedFills_length. discriminate.
  - exact (issuedFills_ml DstarToDzeroPi (config (fst st))
             (kinematicsDstar true (fst st) candidate) _ _).
Qed.

(** X14. In the Lc->pKpi branch with ML every fill of an evaluation has
    eight values and carries, on its two ML axes, the first and the third
    score of the vector of the evaluated hypothesis ([mlProbLcToPKPi] for
    pKpi, [mlProbLcToPiKP] for piKp) when that vector has size 3, and -1
    twice otherwise; the second score is never filled. *)
Theorem X14_lc_ml_scores_of_the_hypothesis (candidate : CandLcToPKPiWSelFlag)
  (bkgRotationId : Z) (iMass : nat) (st : State) :
  (iMass < NMassHypoLcToPKPi)%nat ->
  (lcSelectionFlag candidate iMass >= selectionFlagLcToPKPi (config (fst st)))%Z ->
  let mlProb := if (iMass =? PKPi)%nat
                then mlProbLcToPKPi candidate else mlProbLcToPiKP candidate in
  let mlBkg := if (List.length mlProb =? 3)%nat then nth 0 mlProb 0 else -1 in
  let mlNonPrompt := if (List.length mlProb =? 3)%nat then nth 2 mlProb 0 else -1 in
  exists new,
    entries (registry (fst (evaluate LcToPKPi true candidate bkgRotationId iMass st)))
    = entries (registry (fst st)) ++ new
    /\ Z.of_nat (List.length new) = nSparses (config (fst st))
    /\ Forall (fun e => nth_error (snd e) 5 = Some (Finite mlBkg)
                        /\ nth_error (snd e) 6 = Some (Finite mlNonPrompt)
                        /\ List.length (snd e) = 8%nat)
              new.
Proof.
  intros Hi Hsel mlProb mlBkg mlNonPrompt.
  destruct (kinematicsLc_selected true (fst st) candidate iMass bkgRotationId Hi Hsel)
    as (k & Hk & _ & _ & _ & _ & _ & _ & _ & _ & Hml).
  destruct (evaluate_effect LcToPKPi true candidate bkgRotationId iMass st) as [Heff _].
  cbn [kinematics] in Heff. rewrite Hk in Heff. destruct Heff as [He _].
  eexists. split; [exact He|]. split.
  - apply issuedFills_length. discriminate.
  - assert (at0 (outputMl k) = mlBkg /\ at2 (outputMl k) = mlNonPrompt) as [H0 H2].
    { rewrite Hml. unfold copyMl, mlBkg, mlNonPrompt. fold mlProb.
      destruct (List.length mlProb =? 3)%nat; split; reflexivity. }
    rewrite <- H0, <- H2. exact (issuedFills_ml LcToPKPi (config (fst st)) k _ _).
Qed.

(** X15. The rotations come in mirror pairs: after [init] with
    0 <= N < INT_MAX configured rotations, the angle at index N + 1 - k is
    the full turn minus the angle at index k, so that the replica at index
    N + 1 - k is the second prong rotated by the opposite of the angle at
    index k. *)
Theorem X15_rotations_come_in_mirror_pairs (cfg : Configuration)
  (t : TaskPolarisationCharmHadrons) (candidate : CandLcToPKPiWSelFlag) (k : Z) :
  init cfg = Initialised t ->
  (0 <= nBkgRotations cfg < INT_MAX)%Z ->
  (1 <= k <= nBkgRotations cfg)%Z ->
  let a := bkgRotAngle t k in
  (1 <= nBkgRotations cfg + 1 - k <= nBkgRotations cfg)%Z
  /\ bkgRotAngle t (nBkgRotations cfg + 1 - k) = 2 * PI - a
  /\ threeVecLcRotatedProng1 t candidate (nBkgRotations cfg + 1 - k)
     = (pxProng1 candidate * cos a + pyProng1 candidate * sin a,
        - pxProng1 candidate * sin a + pyProng1 candidate * cos a,
        pzProng1 candidate).
Proof.
  intros Hinit HN Hk a.
  pose proof (step_after_init cfg t Hinit HN) as Hstep.
  assert (0 <= IZR (nBkgRotations cfg)) as HN0 by (apply IZR_le; lia).
  assert (bkgRotAngle t (nBkgRotations cfg + 1 - k) = 2 * PI - a) as Hmirror.
  { unfold a, bkgRotAngle. rewrite Hstep, minus_IZR, plus_IZR. field. lra. }
  split; [lia|]. split; [exact Hmirror|].
  unfold threeVecLcRotatedProng1. rewrite Hmirror.
  rewrite cos_minus, sin_minus, cos_2PI, sin_2PI.
  match goal with
  | |- (?x1, ?y1, _) = (?x2, ?y2, _) =>
      replace x1 with x2 by ring; replace y1 with y2 by ring
  end.
  reflexivity.
Qed.

End Scores.

(** ** The further properties on concrete inputs *)

Lemma X2_lc_fill_count_witness :
  exists t,
    init (ext := Reference.externals) (Reference.configuration 2 false false true false)
    = Initialised t
    /\ nMassHypos t = NMassHypoLcToPKPi
    /\ (0 <= nBkgRotations (config t) < INT_MAX)%Z
    /\ entryCount (ext := Reference.externals)
         (processLcToPKPi (ext := Reference.externals) Reference.lcBoth (t, []))
       = 24%Z
    /\ entryCount (ext := Reference.externals)
         (processLcToPKPi (ext := Reference.externals) Reference.lcPKPiOnly (t, []))
       = 12%Z.
Proof.
  eexists. split; [reflexivity|]. split; [reflexivity|].
  match goal with
  | |- (0 <= ?n < ?m)%Z /\ _ => assert (0 <= n < m)%Z as HN by (unfold INT_MAX; cbn; lia)
  end.
  split; [exact HN|].
  match goal with
  | |- context [processLcToPKPi _ (?t, ?g)] =>
      destruct (X2_lc_fill_count (ext := Reference.externals) Reference.lcBoth (t, g)
                  eq_refl HN) as (Hboth & _);
      destruct (X2_lc_fill_count (ext := Reference.externals) Reference.lcPKPiOnly (t, g)
                  eq_refl HN) as (Hone & _)
  end.
  split; [rewrite Hboth|rewrite Hone]; reflexivity.
Defined.

Lemma X3_lc_random_draws_witness :
  exists t,
    init (ext := Reference.externals) (Reference.configuration 2 false false true false)
    = Initialised t
    /\ nMassHypos t = NMassHypoLcToPKPi
    /\ (0 <= nBkgRotations (config t) < INT_MAX)%Z
    /\ snd (processLc (ext := Reference.externals) false Reference.lcPKPiOnly
              (t, [0.1; 0.2; 0.3; 0.4; 0.5; 0.6; 0.7]))
       = [0.7].
Proof.
  eexists. split; [reflexivity|]. split; [reflexivity|].
  match goal with
  | |- (0 <= ?n < ?m)%Z /\ _ => assert (0 <= n < m)%Z as HN by (unfold INT_MAX; cbn; lia)
  end.
  split; [exact HN|].
  match goal with
  | |- context [processLc _ _ (?t, ?g)] =>
      rewrite (X3_lc_random_draws (ext := Reference.externals) false Reference.lcPKPiOnly
                 (t, g) eq_refl HN)
  end.
  reflexivity.
Defined.

Lemma X4_filter_and_selection_agree_witness :
  exists t,
    init (ext := Reference.externals) (Reference.configuration 2 false false true false)
    = Initialised t
    /\ nMassHypos t = NMassHypoLcToPKPi
    /\ filterSelectLcToPKPiCandidates (config t) Reference.lcUnselected = false
    /\ processLc (ext := Reference.externals) false Reference.lcUnselected (t, [0.25])
       = (t, [0.25])
    /\ filterSelectLcToPKPiCandidates (config t) Reference.lcPKPiOnly = true
    /\ (entryCount (ext := Reference.externals) (t, [0.25%R]) + 4
        <= entryCount (ext := Reference.externals)
             (runPolarisationAnalysis (ext := Reference.externals) LcToPKPi false
                Reference.lcPKPiOnly 1%Z (t, [0.25%R])))%Z.
Proof.
  eexists. split; [reflexivity|]. split; [reflexivity|].
  split; [reflexivity|].
  match goal with
  | |- processLc _ _ ?st = _ /\ _ =>
      destruct (X4_filter_and_selection_agree (ext := Reference.externals) false
                  Reference.lcUnselected st eq_refl) as (Hrej & _);
      destruct (X4_filter_and_selection_agree (ext := Reference.externals) false
                  Reference.lcPKPiOnly st eq_refl) as (_ & Hacc)
  end.
  split; [exact (Hrej eq_refl)|].
  split; [reflexivity|].
  exact (Hacc eq_refl 1%Z).
Defined.

Lemma X5_init_registers_one_histogram_per_switch_witness :
  exists t,
    init (ext := Reference.externals) (Reference.configuration 0 false false false true)
    = Initialised t
    /\ List.length (histograms (registry t)) = 4%nat
    /\ Forall (fun h => List.length (histogramAxes h) = 8%nat) (histograms (registry t)).
Proof.
  eexists. split; [reflexivity|].
  match goal with
  | |- context [registry ?t] =>
      destruct (X5_init_registers_one_histogram_per_switch (ext := Reference.externals)
                  (Reference.configuration 0 false false false true) t eq_refl)
        as (Hlen & _ & Hax & _)
  end.
  split; [reflexivity|exact Hax].
Defined.

Lemma X6_fills_match_registered_histograms_witness :
  exists t,
    init (ext := Reference.externals) (Reference.configuration 2 false false true false)
    = Initialised t
    /\ sameSetup t (fst (t, @nil R))
    /\ exists new,
         entries (registry (fst (processLcToPKPi (ext := Reference.externals)
                                   Reference.lcBoth (t, []))))
         = entries (registry t) ++ new
         /\ Forall (fillMatchesHistogram (registry t)) new.
Proof.
  eexists. split; [reflexivity|].
  split; [apply sameSetup_refl|].
  match goal with
  | |- context [processLcToPKPi _ (?t, ?g)] =>
      destruct (X6_fills_match_registered_histograms (ext := Reference.externals)
                  (Reference.configuration 2 false false true false) t (t, g)
                  eq_refl (sameSetup_refl t)) as (_ & Hlc & _)
  end.
  exact (Hlc eq_refl Reference.lcBoth).
Defined.

Lemma X8_rotation_flag_momentum_and_mass_witness :
  exists t,
    init (ext := Reference.externals) (Reference.configuration 2 false false true false)
    = Initialised t
    /\ exists k,
         kinematicsLcToPKPi (ext := Reference.externals) false t Reference.lcBoth PKPi 1
         = Some k
         /\ isRotatedCandidate k = 1%Z
         /\ invMassCharmHad k
            = rotatedInvMass (ext := Reference.externals) t Reference.lcBoth PKPi 1.
Proof.
  eexists. split; [reflexivity|].
  match goal with
  | |- context [kinematicsLcToPKPi false ?t _ _ _] =>
      destruct (kinematicsLc_selected (ext := Reference.externals) false t
                  Reference.lcBoth PKPi 1%Z (Nat.lt_0_succ 1))
        as (k & Hk & _); [cbn; lia|];
      destruct (X8_rotation_flag_momentum_and_mass (ext := Reference.externals) false t
                  Reference.lcBoth PKPi 1%Z k Hk) as (_ & Hpos & _)
  end.
  exists k. split; [exact Hk|].
  destruct (Hpos eq_refl) as (Hflag & _ & Hmass).
  split; [exact Hflag|exact Hmass].
Defined.

Lemma X9_rotated_replicas_differ_witness :
  exists t,
    init (ext := Reference.externals) (Reference.configuration 2 false false true false)
    = Initialised t
    /\ (0 <= 2 < INT_MAX)%Z
    /\ (1 <= 1 <= 2)%Z
    /\ 0 < bkgRotAngle t 1 < 2 * PI
    /\ threeVecLcRotatedProng1 t Reference.lcBoth 1
       <> (pxProng1 Reference.lcBoth, pyProng1 Reference.lcBoth, pzProng1 Reference.lcBoth).
Proof.
  eexists. split; [reflexivity|].
  assert (0 <= 2 < INT_MAX)%Z as HN by (unfold INT_MAX; lia).
  assert (1 <= 1 <= 2)%Z as Hk by lia.
  split; [exact HN|]. split; [exact Hk|].
  match goal with
  | |- context [bkgRotAngle ?t 1] =>
      destruct (X9_rotated_replicas_differ (ext := Reference.externals)
                  (Reference.configuration 2 false false true false) t
                  Reference.lcBoth 1 eq_refl HN Hk) as (Hangle & Hfix)
  end.
  split; [exact Hangle|].
  intros Heq. apply Hfix in Heq. destruct Heq as [_ Hy].
  cbn in Hy. lra.
Defined.

Lemma X10_production_axis_is_orthogonal_witness :
  exists h p,
    cosThetaStarHelicity (cosThetaStar (ext := Reference.externals) Reference.movingProbe 1 2)
    = Finite h
    /\ cosThetaStarProduction
         (cosThetaStar (ext := Reference.externals) Reference.movingProbe 1 2)
       = Finite p
    /\ h * h + p * p <= 1.
Proof.
  assert (Mag2 (helicityVec Reference.movingProbe) <> 0) as Hh
      by (unfold Mag2, helicityVec, Vect, fourVecMother; cbn; lra).
  assert (Mag2 (normalVec Reference.movingProbe) <> 0) as Hn
      by (unfold Mag2, normalVec; cbn; lra).
  destruct (cosThetaStar_spec (ext := Reference.externals) Reference.movingProbe 1 2)
    as (Hhs & Hps & _).
  destruct (cosineToAxis_bounded _ _ Hh movingProbe_rest_frame_momentum) as (h & Hfh & _).
  destruct (cosineToAxis_bounded _ _ Hn movingProbe_rest_frame_momentum) as (p & Hfp & _).
  rewrite <- Hhs in Hfh. rewrite <- Hps in Hfp.
  exists h, p. split; [exact Hfh|]. split; [exact Hfp|].
  exact (proj2 (proj2 (X10_production_axis_is_orthogonal (ext := Reference.externals)
                         Reference.movingProbe 1 2)) h p Hfh Hfp).
Defined.

Lemma X14_lc_ml_scores_of_the_hypothesis_witness :
  exists t,
    init (ext := Reference.externals) (Reference.configuration 0 false false false true)
    = Initialised t
    /\ (PiKP < NMassHypoLcToPKPi)%nat
    /\ (lcSelectionFlag Reference.lcBoth PiKP >= selectionFlagLcToPKPi (config t))%Z
    /\ exists new,
         entries (registry (fst (evaluate (ext := Reference.externals) LcToPKPi true
                                   Reference.lcBoth 0%Z PiKP (t, []))))
         = entries (registry t) ++ new
         /\ Forall (fun e => nth_error (snd e) 5 = Some (Finite 0.3)
                             /\ nth_error (snd e) 6 = Some (Finite 0.4)
                             /\ List.length (snd e) = 8%nat)
                   new.
Proof.
  eexists. split; [reflexivity|].
  assert (PiKP < NMassHypoLcToPKPi)%nat as Hi by (unfold PiKP, NMassHypoLcToPKPi; lia).
  split; [exact Hi|].
  match goal with
  | |- (?a >= ?b)%Z /\ _ => assert (a >= b)%Z as Hsel by (cbn; lia)
  end.
  split; [exact Hsel|].
  match goal with
  | |- context [evaluate _ _ _ _ _ (?t, ?g)] =>
      destruct (X14_lc_ml_scores_of_the_hypothesis (ext := Reference.externals)
                  Reference.lcBoth 0%Z PiKP (t, g) Hi Hsel) as (new & Hnew & _ & Hml)
  end.
  exists new. split; [exact Hnew|exact Hml].
Defined.

Lemma X15_rotations_come_in_mirror_pairs_witness :
  exists t,
    init (ext := Reference.externals) (Reference.configuration 2 false false true false)
    = Initialised t
    /\ (0 <= 2 < INT_MAX)%Z
    /\ (1 <= 1 <= 2)%Z
    /\ bkgRotAngle t 2 = 2 * PI - bkgRotAngle t 1.
Proof.
  eexists. split; [reflexivity|].
  assert (0 <= 2 < INT_MAX)%Z as HN by (unfold INT_MAX; lia).
  assert (1 <= 1 <= 2)%Z as Hk by lia.
  split; [exact HN|]. split; [exact Hk|].
  match goal with
  | |- bkgRotAngle ?t 2 = _ =>
      exact (proj1 (proj2 (X15_rotations_come_in_mirror_pairs (ext := Reference.externals)
                             (Reference.configuration 2 false false true false) t
                             Reference.lcBoth 1 eq_refl HN Hk)))
  end.
Defined.

(** ** Rotation angles, skipped hypotheses and the dispatcher *)

Section RotationClaim.

Context {ext : Externals}.

(** C1. For the Lc channel with N configured background rotations, the
    angle at rotation index k is k * 2 pi / (N + 1) for every k in 0..N,
    and it is the angle that is applied: the second prong of the replica
    at index k is the original one rotated in the transverse plane by that
    angle, and for k above 0 the parent momentum is built from the prong
    so rotated.  The angle at index 0 is 0 and leaves the prong as it is;
    consecutive angles are one step 2 pi / (N + 1) apart and N + 1 steps
    close the circle, every angle lying in [0, 2 pi); with N = 0 the step
    is the single angle 2 pi, and the rotation by it is the identity. *)
Theorem C1_rotation_angles (cfg : Configuration)
  (t : TaskPolarisationCharmHadrons) (k : Z) :
  init cfg = Initialised t ->
  (0 <= nBkgRotations cfg < INT_MAX)%Z ->
  (0 <= k <= nBkgRotations cfg)%Z ->
  let angle := IZR k * (2 * PI) / (IZR (nBkgRotations cfg) + 1) in
  bkgRotAngle t k = angle
  /\ bkgRotAngle t 0 = 0
  /\ bkgRotAngle t (k + 1) - bkgRotAngle t k = 2 * PI / (IZR (nBkgRotations cfg) + 1)
  /\ bkgRotAngle t (nBkgRotations cfg + 1) = 2 * PI
  /\ 0 <= bkgRotAngle t k < 2 * PI
  /\ (nBkgRotations cfg = 0%Z ->
      bkgRotationAngleStep t = 2 * PI
      /\ forall candidate,
           threeVecLcRotatedProng1 t candidate 1
           = (pxProng1 candidate, pyProng1 candidate, pzProng1 candidate))
  /\ (forall candidate,
         threeVecLcRotatedProng1 t candidate k
         = (pxProng1 candidate * cos angle - pyProng1 candidate * sin angle,
            pxProng1 candidate * sin angle + pyProng1 candidate * cos angle,
            pzProng1 candidate))
  /\ (forall candidate,
         threeVecLcRotatedProng1 t candidate 0
         = (pxProng1 candidate, pyProng1 candidate, pzProng1 candidate))
  /\ (forall withMl candidate iMass,
         (1 <= k)%Z ->
         (iMass < NMassHypoLcToPKPi)%nat ->
         (lcSelectionFlag candidate iMass >= selectionFlagLcToPKPi (config t))%Z ->
         exists kin,
           kinematicsLcToPKPi withMl t candidate iMass k = Some kin
           /\ isRotatedCandidate kin = 1%Z
           /\ pxCharmHad kin
              = pxProng0 candidate
                + (pxProng1 candidate * cos angle - pyProng1 candidate * sin angle)
                + pxProng2 candidate
           /\ pyCharmHad kin
              = pyProng0 candidate
                + (pxProng1 candidate * sin angle + pyProng1 candidate * cos angle)
                + pyProng2 candidate
           /\ pzCharmHad kin
              = pzProng0 candidate + pzProng1 candidate + pzProng2 candidate).
Proof.
  intros Hinit HN Hk angle.
  pose proof (step_after_init cfg t Hinit HN) as Hstep.
  assert (0 <= IZR (nBkgRotations cfg)) as HN0 by (apply IZR_le; lia).
  assert (0 <= IZR k) as Hk0 by (apply IZR_le; lia).
  assert (IZR k <= IZR (nBkgRotations cfg)) as HkN by (apply IZR_le; lia).
  pose proof PI_RGT_0 as Hpi.
  assert (bkgRotAngle t k = angle) as Hangle
      by (unfold bkgRotAngle, angle; rewrite Hstep; field; lra).
  assert (bkgRotAngle t 0 = 0) as Hzero by (unfold bkgRotAngle; ring).
  split; [exact Hangle|].
  split; [exact Hzero|].
  split; [unfold bkgRotAngle; rewrite Hstep, plus_IZR; field; lra|].
  split; [unfold bkgRotAngle; rewrite Hstep, plus_IZR; field; lra|].
  split; [rewrite Hangle; unfold angle; split|].
  - apply Rmult_le_pos; [|left; apply Rinv_0_lt_compat; lra].
    apply Rmult_le_pos; lra.
  - apply Rmult_lt_reg_r with (IZR (nBkgRotations cfg) + 1); [lra|].
    replace (IZR k * (2 * PI) / (IZR (nBkgRotations cfg) + 1)
             * (IZR (nBkgRotations cfg) + 1))
      with (2 * PI * IZR k) by (field; lra).
    nra.
  - split; [|split; [|split]].
    + intros HN1. split.
      * rewrite Hstep, HN1. field.
      * intros candidate. apply rotation_by_full_turn.
        rewrite Hstep, HN1. field.
    + intros candidate. unfold threeVecLcRotatedProng1. rewrite Hangle. reflexivity.
    + intros candidate. unfold threeVecLcRotatedProng1.
      rewrite Hzero, cos_0, sin_0.
      match goal with
      | |- (?x1, ?y1, _) = (?x2, ?y2, _) =>
          replace x1 with x2 by ring; replace y1 with y2 by ring
      end.
      reflexivity.
    + intros withMl candidate iMass Hk1 Hi Hsel.
      destruct (kinematicsLc_selected withMl t candidate iMass k Hi Hsel)
        as (kin & Hkin & _ & _ & Hflag & Hpx & Hpy & Hpz & _).
      assert ((k >? 0)%Z = true) as Hgt by lia.
      rewrite Hgt in Hflag, Hpx, Hpy, Hpz.
      unfold threeVecLcRotatedProng1, at0, at1, at2 in Hpx, Hpy, Hpz.
      cbn [fst snd] in Hpx, Hpy, Hpz. rewrite Hangle in Hpx, Hpy.
      exists kin. repeat split; assumption.
Qed.

End RotationClaim.

Lemma C1_rotation_angles_witness :
  exists t,
    init (ext := Reference.externals) (Reference.configuration 1 false false true false)
    = Initialised t
    /\ (0 <= 1 < INT_MAX)%Z
    /\ (0 <= 1 <= 1)%Z
    /\ bkgRotAngle t 1 = PI
    /\ bkgRotAngle t 0 = 0
    /\ threeVecLcRotatedProng1 t Reference.lcBoth 1 = (0, -1, 0)
    /\ threeVecLcRotatedProng1 t Reference.lcBoth 0 = (0, 1, 0).
Proof.
  eexists. split; [reflexivity|].
  assert (0 <= 1 < INT_MAX)%Z as HN by (unfold INT_MAX; lia).
  assert (0 <= 1 <= 1)%Z as Hk by lia.
  split; [exact HN|]. split; [exact Hk|].
  destruct (C1_rotation_angles (ext := Reference.externals)
              (Reference.configuration 1 false false true false) _ 1 eq_refl HN Hk)
    as (Hangle & Hzero & _ & _ & _ & _ & Hrot & Hrot0 & _).
  assert (1 * (2 * PI) / (1 + 1) = PI) as Hpi by field.
  split; [rewrite <- Hpi; exact Hangle|]. split; [exact Hzero|]. split.
  - rewrite (Hrot Reference.lcBoth).
    cbn [nBkgRotations Reference.configuration]. rewrite Hpi, cos_PI, sin_PI.
    cbn [pxProng1 pyProng1 pzProng1 Reference.lcBoth].
    match goal with
    | |- (?x1, ?y1, _) = (?x2, ?y2, _) =>
        replace x1 with x2 by ring; replace y1 with y2 by ring
    end.
    reflexivity.
  - exact (Hrot0 Reference.lcBoth).
Defined.

Section SkipClaim.

Context {ext : Externals}.

Lemma otherHypothesis_in_range (iMass : nat) :
  (otherHypothesis iMass < NMassHypoLcToPKPi)%nat.
Proof.
  unfold otherHypothesis, PiKP, PKPi, NMassHypoLcToPKPi.
  destruct (iMass =? 0)%nat; lia.
Qed.

(** One hypothesis below the threshold and the other one selected: one
    selected hypothesis. *)
Lemma selectedCount_one (t : TaskPolarisationCharmHadrons)
  (candidate : CandLcToPKPiWSelFlag) (iMass : nat) :
  (iMass < NMassHypoLcToPKPi)%nat ->
  (lcSelectionFlag candidate iMass < selectionFlagLcToPKPi (config t))%Z ->
  (lcSelectionFlag candidate (otherHypothesis iMass)
   >= selectionFlagLcToPKPi (config t))%Z ->
  selectedCount t candidate = 1%Z.
Proof.
  unfold selectedCount, lcSelectionFlag, otherHypothesis, NMassHypoLcToPKPi, PKPi, PiKP.
  intros Hi Hsel Hother.
  destruct iMass as [|[|n]]; [| |lia]; cbn [Nat.eqb] in *.
  - assert ((isSelLcToPKPi candidate >=? selectionFlagLcToPKPi (config t))%Z = false)
      as -> by lia.
    assert ((isSelLcToPiKP candidate >=? selectionFlagLcToPKPi (config t))%Z = true)
      as -> by lia.
    reflexivity.
  - assert ((isSelLcToPKPi candidate >=? selectionFlagLcToPKPi (config t))%Z = true)
      as -> by lia.
    assert ((isSelLcToPiKP candidate >=? selectionFlagLcToPKPi (config t))%Z = false)
      as -> by lia.
    reflexivity.
Qed.

(** C5. For every Lc candidate whose selection flag for a mass hypothesis
    is below the configured threshold, the evaluation of that hypothesis is
    skipped: no variables are produced for it, so no cosine is computed,
    no random number is drawn and no fill is issued.  The other hypothesis
    is still processed, at rotation index 0 and at every rotation index of
    the loop: when it is selected, each rotation index produces its
    variables, draws the two angles and adds one fill per enabled
    histogram, each with the invariant mass of that hypothesis on the mass
    axis (for a candidate selected as pKpi only, the pKpi mass, never the
    initial value 0 of a piKp pass), so that the process function adds
    (N + 1) fills per enabled histogram. *)
Theorem C5_unselected_hypothesis_is_skipped (withMl : bool)
  (candidate : CandLcToPKPiWSelFlag) (iMass : nat) (st : State) :
  nMassHypos (fst st) = NMassHypoLcToPKPi ->
  (iMass < NMassHypoLcToPKPi)%nat ->
  (lcSelectionFlag candidate iMass < selectionFlagLcToPKPi (config (fst st)))%Z ->
  (forall rot,
      kinematicsLcToPKPi withMl (fst st) candidate iMass rot = None
      /\ evaluate LcToPKPi withMl candidate rot iMass st = st)
  /\ (forall rot,
         runPolarisationAnalysis LcToPKPi withMl candidate rot st
         = evaluate LcToPKPi withMl candidate rot (otherHypothesis iMass) st)
  /\ ((nBkgRotations (config (fst st)) < INT_MAX)%Z ->
      processLc withMl candidate st
      = fold_left (fun s rot => evaluate LcToPKPi withMl candidate rot
                                         (otherHypothesis iMass) s)
                  (allRotationIds (nBkgRotations (config (fst st)))) st)
  /\ ((lcSelectionFlag candidate (otherHypothesis iMass)
       >= selectionFlagLcToPKPi (config (fst st)))%Z ->
      (forall rot, exists k new,
          kinematicsLcToPKPi withMl (fst st) candidate (otherHypothesis iMass) rot
          = Some k
          /\ runPolarisationAnalysis LcToPKPi withMl candidate rot st
             = angleAndFill LcToPKPi withMl k st
          /\ entries (registry (fst (runPolarisationAnalysis LcToPKPi withMl
                                       candidate rot st)))
             = entries (registry (fst st)) ++ new
          /\ Z.of_nat (List.length new) = nSparses (config (fst st))
          /\ Forall (fun e =>
                       massAxisValue e
                       = Some (Finite
                                 (if (rot =? 0)%Z
                                  then unrotatedInvMass candidate (otherHypothesis iMass)
                                  else rotatedInvMass (fst st) candidate
                                         (otherHypothesis iMass) rot)))
                    new
          /\ snd (runPolarisationAnalysis LcToPKPi withMl candidate rot st)
             = snd (Uniform (snd (Uniform (snd st) 0 TwoPI)) 0 PI))
      /\ ((0 <= nBkgRotations (config (fst st)) < INT_MAX)%Z ->
          entryCount (processLc withMl candidate st)
          = (entryCount st
             + (nBkgRotations (config (fst st)) + 1) * nSparses (config (fst st)))%Z)).
Proof.
  intros Htwo Hi Hsel.
  pose proof (sameSetup_refl (fst st)) as Hsame.
  split; [|split; [|split]].
  - intros rot.
    pose proof (kinematicsLc_unselected withMl (fst st) candidate iMass rot Hsel) as Hnone.
    split; [exact Hnone|].
    apply (evaluate_skip LcToPKPi withMl candidate rot iMass (fst st)); assumption.
  - intros rot. apply (run_skips_unselected withMl candidate (fst st) iMass); assumption.
  - intros _. rewrite processLc_fold.
    apply (fold_run_skips_unselected withMl candidate (fst st) iMass); assumption.
  - intros Hother. split.
    + intros rot.
      destruct (kinematicsLc_selected withMl (fst st) candidate (otherHypothesis iMass) rot
                  (otherHypothesis_in_range iMass) Hother)
        as (k & Hk & _ & _ & _ & _ & _ & _ & Hm & Hms & _).
      rewrite (run_skips_unselected withMl candidate (fst st) iMass Htwo Hi Hsel rot st Hsame).
      assert (evaluate LcToPKPi withMl candidate rot (otherHypothesis iMass) st
              = angleAndFill LcToPKPi withMl k st) as Heval.
      { unfold evaluate. cbn [kinematics]. rewrite Hk. reflexivity. }
      rewrite Heval. destruct st as [t g]. cbn [fst snd] in *.
      destruct (angleAndFill_spec LcToPKPi withMl k t g) as (Hg & Hentries & _).
      exists k. eexists. split; [exact Hk|]. split; [reflexivity|].
      split; [exact Hentries|]. split; [apply issuedFills_length; discriminate|].
      split; [|exact Hg].
      rewrite <- Hm, <- Hms. apply issuedFills_mass.
    + intros [HN _].
      destruct (processLc_counts withMl candidate (fst st) Htwo st Hsame HN) as [Hcount _].
      rewrite Hcount, (selectedCount_one (fst st) candidate iMass Hi Hsel Hother). lia.
Qed.

End SkipClaim.

Lemma C5_unselected_hypothesis_is_skipped_witness :
  exists t,
    init (ext := Reference.externals) (Reference.configuration 2 false false true false)
    = Initialised t
    /\ nMassHypos t = NMassHypoLcToPKPi
    /\ (PiKP < NMassHypoLcToPKPi)%nat
    /\ (lcSelectionFlag Reference.lcPKPiOnly PiKP < selectionFlagLcToPKPi (config t))%Z
    /\ (lcSelectionFlag Reference.lcPKPiOnly (otherHypothesis PiKP)
        >= selectionFlagLcToPKPi (config t))%Z
    /\ (0 <= nBkgRotations (config t) < INT_MAX)%Z
    /\ evaluate (ext := Reference.externals) LcToPKPi false Reference.lcPKPiOnly 1%Z PiKP
         (t, [0.25; 0.5])
       = (t, [0.25; 0.5])
    /\ entryCount (ext := Reference.externals)
         (runPolarisationAnalysis (ext := Reference.externals) LcToPKPi false
            Reference.lcPKPiOnly 1%Z (t, [0.25; 0.5]))
       = 4%Z
    /\ snd (runPolarisationAnalysis (ext := Reference.externals) LcToPKPi false
              Reference.lcPKPiOnly 1%Z (t, [0.25; 0.5]))
       = []
    /\ entryCount (ext := Reference.externals)
         (processLc (ext := Reference.externals) false Reference.lcPKPiOnly
            (t, [0.25; 0.5]))
       = 12%Z.
Proof.
  eexists. split; [reflexivity|].
  split; [reflexivity|].
  assert (PiKP < NMassHypoLcToPKPi)%nat as Hi by (unfold PiKP, NMassHypoLcToPKPi; lia).
  split; [exact Hi|].
  match goal with
  | |- (?a < ?b)%Z /\ _ => assert (a < b)%Z as Hsel by (cbn; lia)
  end.
  split; [exact Hsel|].
  match goal with
  | |- (?a >= ?b)%Z /\ _ => assert (a >= b)%Z as Hother by (cbn; lia)
  end.
  split; [exact Hother|].
  match goal with
  | |- (0 <= ?n < ?m)%Z /\ _ => assert (0 <= n < m)%Z as HN by (unfold INT_MAX; cbn; lia)
  end.
  split; [exact HN|].
  match goal with
  | |- evaluate _ _ _ _ _ ?st = _ /\ _ =>
      destruct (C5_unselected_hypothesis_is_skipped (ext := Reference.externals) false
                  Reference.lcPKPiOnly PiKP st eq_refl Hi Hsel)
        as (Hskip & _ & _ & Hprocessed)
  end.
  split; [exact (proj2 (Hskip 1%Z))|].
  destruct (Hprocessed Hother) as (Hrun & Hcount).
  destruct (Hrun 1%Z) as (k & new & _ & _ & Hentries & Hlen & _ & Hg).
  split; [|split].
  - unfold entryCount. rewrite Hentries, length_app, Nat2Z.inj_add, Hlen. reflexivity.
  - rewrite Hg. reflexivity.
  - rewrite (Hcount HN). reflexivity.
Defined.

Section DispatcherPairs.

Context {ext : Externals}.

(** [processDstar] issues the fills of one evaluation. *)
Lemma processDstar_count (candidate : CandDstarWSelFlag) (st : State) :
  nMassHypos (fst st) = 1%nat ->
  entryCount (processDstar candidate st)
  = (entryCount st + nSparses (config (fst st)))%Z.
Proof.
  intros Hone. unfold processDstar. rewrite runPolarisationAnalysis_one by exact Hone.
  destruct (evaluate_effect DstarToDzeroPi false candidate 0%Z 0%nat st) as [Heff _].
  cbn [kinematics] in Heff. destruct Heff as [He _].
  unfold entryCount. rewrite He, length_app, Nat2Z.inj_add.
  rewrite issuedFills_length by discriminate. reflexivity.
Qed.

(** C7 (amended). Per candidate, with 0 <= N < INT_MAX configured
    background rotations, the pairs (mass hypothesis, rotation index) that
    are evaluated are: for the D* channel without ML the one pair made of
    the single mass hypothesis and rotation index 0, which adds one fill
    per enabled histogram; for the D* channel with ML no pair at all, its
    process function being a stub (the number of mass hypotheses is 1 in
    that mode too); for the Lc->pKpi channel (with or without ML) the two
    mass hypotheses pKpi and piKp crossed with the rotation indices 0..N:
    each such pair once, 2 (N + 1) in all, a pair adding one fill per
    enabled histogram when its hypothesis is selected. *)
Theorem C7_dispatcher_pairs (cfg : Configuration)
  (t0 : TaskPolarisationCharmHadrons) (st : State) :
  init cfg = Initialised t0 ->
  sameSetup t0 (fst st) ->
  (0 <= nBkgRotations cfg < INT_MAX)%Z ->
  let lcPairs := evaluationPairs NMassHypoLcToPKPi (allRotationIds (nBkgRotations cfg)) in
  (0 < nSparses cfg)%Z
  /\ (doprocessDstar cfg = true ->
   nMassHypos t0 = 1%nat
   /\ forall candidate,
        processDstar candidate st
        = evaluateAll DstarToDzeroPi false candidate [(0%nat, 0%Z)] st
        /\ entryCount (processDstar candidate st)
           = (entryCount st + nSparses cfg)%Z)
  /\ (doprocessDstarWithMl cfg = true ->
      nMassHypos t0 = 1%nat
      /\ forall candidate,
           processDstarWithMl candidate st
           = evaluateAll DstarToDzeroPi true candidate [] st
           /\ entryCount (processDstarWithMl candidate st) = entryCount st)
  /\ (doprocessLcToPKPi cfg = true ->
      nMassHypos t0 = NMassHypoLcToPKPi
      /\ forall candidate,
           processLcToPKPi candidate st
           = evaluateAll LcToPKPi false candidate lcPairs st
           /\ entryCount (processLcToPKPi candidate st)
              = (entryCount st
                 + (nBkgRotations cfg + 1) * selectedCount t0 candidate * nSparses cfg)%Z)
  /\ (doprocessLcToPKPiWithMl cfg = true ->
      nMassHypos t0 = NMassHypoLcToPKPi
      /\ forall candidate,
           processLcToPKPiWithMl candidate st
           = evaluateAll LcToPKPi true candidate lcPairs st
           /\ entryCount (processLcToPKPiWithMl candidate st)
              = (entryCount st
                 + (nBkgRotations cfg + 1) * selectedCount t0 candidate * nSparses cfg)%Z)
  /\ (forall iMass rot,
         In (iMass, rot) lcPairs
         <-> (iMass = PKPi \/ iMass = PiKP) /\ (0 <= rot <= nBkgRotations cfg)%Z)
  /\ NoDup lcPairs
  /\ Z.of_nat (List.length lcPairs) = (2 * (nBkgRotations cfg + 1))%Z.
Proof.
  intros Hinit Hsame [HN _] lcPairs.
  destruct (init_completes cfg t0 Hinit) as (Hone & Hsp & Hcfg & _ & Hn & _).
  rewrite nProcesses_eq in Hone.
  assert (config (fst st) = cfg /\ nMassHypos (fst st) = nMassHypos t0) as [Hcst Hnst].
  { destruct Hsame as (Hc & Hns & _). split; congruence. }
  split; [|split; [|split; [|split; [|split; [|split; [|split]]]]]].
  - pose proof (nSparses_nonneg cfg). lia.
  - intros Hd. rewrite Hd in Hone.
    assert (nMassHypos t0 = 1%nat) as Hn1.
    { rewrite Hn.
      destruct (doprocessDstarWithMl cfg), (doprocessLcToPKPi cfg),
               (doprocessLcToPKPiWithMl cfg); cbn in Hone |- *; try lia; reflexivity. }
    split; [exact Hn1|]. intros candidate. split.
    + unfold processDstar. rewrite run_is_evaluateAll, Hnst, Hn1. reflexivity.
    + rewrite processDstar_count by congruence. rewrite Hcst. reflexivity.
  - intros Hd. rewrite Hd in Hone. split.
    + rewrite Hn.
      destruct (doprocessDstar cfg), (doprocessLcToPKPi cfg),
               (doprocessLcToPKPiWithMl cfg); cbn in Hone |- *; try lia; reflexivity.
    + intros candidate. split; reflexivity.
  - intros Hl. rewrite Hl in Hn. cbn [orb] in Hn.
    split; [exact Hn|]. intros candidate. split.
    + change (processLcToPKPi candidate st) with (processLc false candidate st).
      rewrite (processLc_is_evaluateAll false t0) by exact Hsame.
      rewrite Hn, Hcfg. reflexivity.
    + change (processLcToPKPi candidate st) with (processLc false candidate st).
      destruct (processLc_counts false candidate t0 Hn st Hsame) as [Hcount _];
        [rewrite Hcfg; exact HN|].
      rewrite Hcount, Hcfg. reflexivity.
  - intros Hl. rewrite Hl, orb_true_r in Hn.
    split; [exact Hn|]. intros candidate. split.
    + change (processLcToPKPiWithMl candidate st) with (processLc true candidate st).
      rewrite (processLc_is_evaluateAll true t0) by exact Hsame.
      rewrite Hn, Hcfg. reflexivity.
    + change (processLcToPKPiWithMl candidate st) with (processLc true candidate st).
      destruct (processLc_counts true candidate t0 Hn st Hsame) as [Hcount _];
        [rewrite Hcfg; exact HN|].
      rewrite Hcount, Hcfg. reflexivity.
  - intros iMass rot. unfold lcPairs.
    rewrite in_evaluationPairs, in_allRotationIds by exact HN.
    unfold NMassHypoLcToPKPi, PKPi, PiKP. lia.
  - apply NoDup_evaluationPairs, NoDup_allRotationIds.
  - unfold lcPairs. rewrite length_evaluationPairs, Nat2Z.inj_mul.
    rewrite length_allRotationIds by exact HN.
    unfold NMassHypoLcToPKPi. lia.
Qed.

End DispatcherPairs.

Lemma C7_dispatcher_pairs_witness :
  exists t,
    init (ext := Reference.externals) (Reference.configuration 2 false false true false)
    = Initialised t
    /\ sameSetup t (fst (t, @nil R))
    /\ (0 <= 2 < INT_MAX)%Z
    /\ processLcToPKPi (ext := Reference.externals) Reference.lcBoth (t, [])
       = evaluateAll (ext := Reference.externals) LcToPKPi false Reference.lcBoth
           [(PKPi, 0%Z); (PiKP, 0%Z); (PKPi, 1%Z); (PiKP, 1%Z); (PKPi, 2%Z); (PiKP, 2%Z)]
           (t, [])
    /\ entryCount (ext := Reference.externals)
         (processLcToPKPi (ext := Reference.externals) Reference.lcBoth (t, []))
       = 24%Z.
Proof.
  eexists. split; [reflexivity|].
  split; [apply sameSetup_refl|].
  assert (0 <= 2 < INT_MAX)%Z as HN by (unfold INT_MAX; lia).
  split; [exact HN|].
  match goal with
  | |- processLcToPKPi _ (?t, ?g) = _ /\ _ =>
      destruct (C7_dispatcher_pairs (ext := Reference.externals)
                  (Reference.configuration 2 false false true false) t (t, g)
                  eq_refl (sameSetup_refl t) HN)
        as (_ & _ & _ & Hlc & _)
  end.
  destruct (proj2 (Hlc eq_refl) Reference.lcBoth) as [Hpairs Hcount].
  split; [exact Hpairs|]. rewrite Hcount. reflexivity.
Defined.

(** In the D* mode with ML, [init] completes and registers four histograms,
    but a candidate gets no evaluation: the process function adds no fill,
    where the evaluation of the pair (0, 0) adds four. *)
Lemma C7_counterexample :
  exists t,
    init (ext := Reference.externals) (Reference.configuration 0 false true false false)
    = Initialised t
    /\ doprocessDstarWithMl (config t) = true
    /\ nMassHypos t = 1%nat
    /\ entryCount (ext := Reference.externals)
         (processDstarWithMl (ext := Reference.externals) Reference.dstarPlus (t, []))
       = 0%Z
    /\ entryCount (ext := Reference.externals)
         (evaluateAll (ext := Reference.externals) DstarToDzeroPi true
            Reference.dstarPlus [(0%nat, 0%Z)] (t, []))
       = 4%Z
    /\ processDstarWithMl (ext := Reference.externals) Reference.dstarPlus (t, [])
       <> evaluateAll (ext := Reference.externals) DstarToDzeroPi true
            Reference.dstarPlus [(0%nat, 0%Z)] (t, []).
Proof.
  eexists. split; [reflexivity|].
  split; [reflexivity|]. split; [reflexivity|]. split; [reflexivity|].
  match goal with
  | |- entryCount (evaluateAll _ _ _ _ ?st) = _ /\ _ =>
      assert (entryCount (ext := Reference.externals)
                (evaluateAll (ext := Reference.externals) DstarToDzeroPi true
                   Reference.dstarPlus [(0%nat, 0%Z)] st) = 4%Z) as Hfour;
      [destruct (evaluate_effect (ext := Reference.externals) DstarToDzeroPi true
                   Reference.dstarPlus 0%Z 0%nat st) as [Heff _];
       cbn [kinematics] in Heff; destruct Heff as [He _];
       unfold evaluateAll; cbn [fold_left fst snd]; unfold entryCount;
       rewrite He, length_app, Nat2Z.inj_add, issuedFills_length by discriminate;
       reflexivity|]
  end.
  split; [exact Hfour|].
  intros Heq. rewrite <- Heq in Hfour. discriminate Hfour.
Qed.

Lemma bothAtRest_rest_frame_momentum :
  Mag2 (threeVecDauCM (ext := Reference.externals) Reference.bothAtRest) = 0.
Proof.
  unfold Mag2, threeVecDauCM, Vect, fourVecMother, fourVecDau, Reference.bothAtRest.
  cbn [Boost BoostToCM Reference.externals Reference.boost Reference.boostToCM
         Px Py Pz M X Y Z_ pxDau pyDau pzDau massDau pxCharmHad pyCharmHad pzCharmHad
         invMassCharmHad].
  unfold Rdiv. ring.
Qed.

Lemma X16_cosine_formulas_in_real_arithmetic_witness :
  Mag2 (threeVecDauCM (ext := Reference.externals) Reference.movingProbe) <> 0
  /\ Mag2 (helicityVec Reference.movingProbe) <> 0
  /\ Mag2 (normalVec Reference.movingProbe) <> 0
  /\ Mag2 (threeVecDauCM (ext := Reference.externals) Reference.bothAtRest) = 0
  /\ isCosine (cosThetaStarHelicity
                 (cosThetaStar (ext := Reference.externals) Reference.movingProbe 1 2))
  /\ isCosine (cosThetaStarProduction
                 (cosThetaStar (ext := Reference.externals) Reference.movingProbe 1 2))
  /\ isCosine (cosThetaStarBeam
                 (cosThetaStar (ext := Reference.externals) Reference.movingProbe 1 2))
  /\ isCosine (cosThetaStarRandom
                 (cosThetaStar (ext := Reference.externals) Reference.movingProbe 1 2))
  /\ cosThetaStarBeam
       (cosThetaStar (ext := Reference.externals) Reference.bothAtRest 1 2)
     = NonFinite.
Proof.
  assert (Mag2 (helicityVec Reference.movingProbe) <> 0) as Hh
      by (unfold Mag2, helicityVec, Vect, fourVecMother; cbn; lra).
  assert (Mag2 (normalVec Reference.movingProbe) <> 0) as Hn
      by (unfold Mag2, normalVec; cbn; lra).
  destruct (X16_cosine_formulas_in_real_arithmetic (ext := Reference.externals)
              Reference.movingProbe 1 2) as (Hbounded & _).
  destruct (Hbounded movingProbe_rest_frame_momentum) as (H1 & H2 & H3 & H4).
  destruct (X16_cosine_formulas_in_real_arithmetic (ext := Reference.externals)
              Reference.bothAtRest 1 2) as (_ & Hzero).
  destruct (Hzero bothAtRest_rest_frame_momentum) as (_ & _ & H5 & _).
  split; [exact movingProbe_rest_frame_momentum|].
  split; [exact Hh|]. split; [exact Hn|].
  split; [exact bothAtRest_rest_frame_momentum|].
  split; [exact (H1 Hh)|]. split; [exact (H2 Hn)|].
  split; [exact H3|]. split; [exact H4|exact H5].
Defined.
